(** * A consistent hashing ring (consistent_hashing/ring.py)

    Shallow embedding of [ServerNode] and [ConsistentHashingRing] and the
    properties of membership changes and data placement.

    - Python integers are [Z]; list indices and lengths are [nat].
    - A [dict] is a finite map ([gmap]); the iteration order of a dict
      is the order of [map_to_list].  The two loops of [transfer_data]
      run over a duplicate-free list of keys of the source dict, so the
      stores they produce do not depend on that order.
    - A [ServerNode] is an object whose attributes are never re-assigned:
      it is the pair of its name and of a reference to its [data] dict.
      The dicts live in a heap, so that two references to the same dict
      (the same node passed twice, or two nodes built on one dict) alias.
    - An exception ends the call and keeps every mutation made before it:
      a method is a function from the state to the state and a result.
    - [hash_fn] is the function of the source: the MD5 digest of the
      name or key, read as an integer, modulo 360.
    - [print] calls are not modelled. *)

From Stdlib Require Import ZArith List String Ascii Lia Bool.
From stdpp Require Import base gmap strings list fin_maps sorting.

Open Scope Z_scope.

(** ** hashlib.md5 (RFC 1321) *)

Module MD5.

Definition mask32 (x : Z) : Z := x mod 2 ^ 32.

Definition rotl32 (x : Z) (c : Z) : Z :=
  mask32 (Z.lor (Z.shiftl x c) (Z.shiftr x (32 - c))).

Definition not32 (x : Z) : Z := Z.lxor x 0xffffffff.

Definition K : list Z :=
  [ 0xd76aa478; 0xe8c7b756; 0x242070db; 0xc1bdceee;
    0xf57c0faf; 0x4787c62a; 0xa8304613; 0xfd469501;
    0x698098d8; 0x8b44f7af; 0xffff5bb1; 0x895cd7be;
    0x6b901122; 0xfd987193; 0xa679438e; 0x49b40821;
    0xf61e2562; 0xc040b340; 0x265e5a51; 0xe9b6c7aa;
    0xd62f105d; 0x02441453; 0xd8a1e681; 0xe7d3fbc8;
    0x21e1cde6; 0xc33707d6; 0xf4d50d87; 0x455a14ed;
    0xa9e3e905; 0xfcefa3f8; 0x676f02d9; 0x8d2a4c8a;
    0xfffa3942; 0x8771f681; 0x6d9d6122; 0xfde5380c;
    0xa4beea44; 0x4bdecfa9; 0xf6bb4b60; 0xbebfbc70;
    0x289b7ec6; 0xeaa127fa; 0xd4ef3085; 0x04881d05;
    0xd9d4d039; 0xe6db99e5; 0x1fa27cf8; 0xc4ac5665;
    0xf4292244; 0x432aff97; 0xab9423a7; 0xfc93a039;
    0x655b59c3; 0x8f0ccc92; 0xffeff47d; 0x85845dd1;
    0x6fa87e4f; 0xfe2ce6e0; 0xa3014314; 0x4e0811a1;
    0xf7537e82; 0xbd3af235; 0x2ad7d2bb; 0xeb86d391 ].

Definition S : list Z :=
  [ 7; 12; 17; 22; 7; 12; 17; 22; 7; 12; 17; 22; 7; 12; 17; 22;
    5; 9; 14; 20; 5; 9; 14; 20; 5; 9; 14; 20; 5; 9; 14; 20;
    4; 11; 16; 23; 4; 11; 16; 23; 4; 11; 16; 23; 4; 11; 16; 23;
    6; 10; 15; 21; 6; 10; 15; 21; 6; 10; 15; 21; 6; 10; 15; 21 ].

(** The message as bytes, then the padding: one 0x80 byte, zeros up to
    56 modulo 64, and the bit length on 8 little-endian bytes. *)
Definition bytes_of_string (s : string) : list Z :=
  map (fun c => Z.of_N (N_of_ascii c)) (list_ascii_of_string s).

Fixpoint le_bytes (n : nat) (x : Z) : list Z :=
  match n with
  | O => []
  | Datatypes.S n' => x mod 256 :: le_bytes n' (x / 256)
  end.

Definition pad (msg : list Z) : list Z :=
  let len := Z.of_nat (length msg) in
  let zeros := Z.to_nat ((55 - len) mod 64) in
  msg ++ 0x80 :: repeat 0 zeros ++ le_bytes 8 (8 * len).

Fixpoint le_words (n : nat) (bs : list Z) : list Z :=
  match n with
  | O => []
  | Datatypes.S n' =>
      match bs with
      | b0 :: b1 :: b2 :: b3 :: rest =>
          (b0 + 256 * (b1 + 256 * (b2 + 256 * b3))) :: le_words n' rest
      | _ => []
      end
  end.

Record regs := Regs { rA : Z; rB : Z; rC : Z; rD : Z }.

Definition init : regs :=
  Regs 0x67452301 0xefcdab89 0x98badcfe 0x10325476.

Definition round (M : list Z) (r : regs) (i : nat) : regs :=
  let '(Regs A B C D) := r in
  let '(F, g) :=
    if (i <? 16)%nat then
      (Z.lor (Z.land B C) (Z.land (not32 B) D), i)
    else if (i <? 32)%nat then
      (Z.lor (Z.land D B) (Z.land (not32 D) C), ((5 * i + 1) mod 16)%nat)
    else if (i <? 48)%nat then
      (Z.lxor B (Z.lxor C D), ((3 * i + 5) mod 16)%nat)
    else
      (Z.lxor C (Z.lor B (not32 D)), ((7 * i) mod 16)%nat) in
  let F' := mask32 (F + A + nth i K 0 + nth g M 0) in
  Regs D (mask32 (B + rotl32 F' (nth i S 0))) B C.

Definition chunk (r : regs) (M : list Z) : regs :=
  let r' := fold_left (round M) (seq 0 64) r in
  Regs (mask32 (rA r + rA r')) (mask32 (rB r + rB r'))
       (mask32 (rC r + rC r')) (mask32 (rD r + rD r')).

Fixpoint chunks (n : nat) (bs : list Z) (r : regs) : regs :=
  match n with
  | O => r
  | Datatypes.S n' => chunks n' (skipn 64 bs) (chunk r (le_words 16 bs))
  end.

Definition digest (s : string) : list Z :=
  let bs := pad (bytes_of_string s) in
  let r := chunks (length bs / 64) bs init in
  le_bytes 4 (rA r) ++ le_bytes 4 (rB r) ++ le_bytes 4 (rC r) ++ le_bytes 4 (rD r).

(** [int(hexdigest, 16)]: the sixteen digest bytes read as one
    big-endian number. *)
Definition int_of_hexdigest (s : string) : Z :=
  fold_left (fun acc b => 256 * acc + b) (digest s) 0.

End MD5.

(** ** Objects, state and exceptions *)

(** The exceptions the module can raise: an explicit [raise KeyError],
    a dict lookup or [del] on an absent key ([KeyError]), a modulo by
    [len([])] ([ZeroDivisionError]), [list.remove] of an absent element
    ([ValueError]) and a list index out of range ([IndexError]). *)
Inductive exn : Type :=
  | KeyError
  | ZeroDivisionError
  | ValueError
  | IndexError.

Inductive outcome (A : Type) : Type :=
  | Return (a : A)
  | Raise (e : exn).
Arguments Return {A} a.
Arguments Raise {A} e.

(** A reference to a [dict] object holding the data of a server. *)
Definition loc : Type := positive.

(** class ServerNode: [name] and [data] are set once, by [__init__]. *)
Record ServerNode : Type := mkServerNode {
  name : string;
  data : loc
}.

(** class ConsistentHashingRing ([ring], [sorted_server_keys]) together
    with the dicts of the server nodes ([heap]).  A reference that was
    never written reads as the empty dict. *)
Record State : Type := mkState {
  ring : gmap Z ServerNode;
  sorted_server_keys : list Z;
  heap : gmap loc (gmap string Z)
}.

(** [self.hash_fn]; [str(key).encode("utf-8")] of a [string] is the
    string itself, read as bytes. *)
Definition hash_fn (key : string) : Z := MD5.int_of_hexdigest key mod 360.

(** [Ring.__init__]; every dict is still empty. *)
Definition init : State := mkState ∅ [] ∅.

(** Computations that read and write the state and may raise. *)
Definition M (A : Type) : Type := State → State * outcome A.

#[global] Instance M_ret : MRet M := λ A a s, (s, Return a).
#[global] Instance M_bind : MBind M := λ A B f m s,
  match m s with
  | (s', Return a) => f a s'
  | (s', Raise e) => (s', Raise e)
  end.

Definition raise {A : Type} (e : exn) : M A := λ s, (s, Raise e).
Definition get_state : M State := λ s, (s, Return s).
Definition set_ring (r : gmap Z ServerNode) : M unit :=
  λ s, (mkState r (sorted_server_keys s) (heap s), Return tt).
Definition set_sorted_server_keys (l : list Z) : M unit :=
  λ s, (mkState (ring s) l (heap s), Return tt).
Definition set_dict (l : loc) (d : gmap string Z) : M unit :=
  λ s, (mkState (ring s) (sorted_server_keys s) (<[l := d]> (heap s)), Return tt).

(** [for x in l: body(x)]. *)
Fixpoint for_each {A : Type} (l : list A) (body : A → M unit) : M unit :=
  match l with
  | [] => mret tt
  | x :: l' => body x ;; for_each l' body
  end.

(** *** dict operations on a data store *)

(** [d[key]] *)
Definition dict_getitem (l : loc) (key : string) : M Z :=
  s ← get_state;
  match (heap s !!! l) !! key with
  | Some v => mret v
  | None => raise KeyError
  end.

(** [d[key] = value] *)
Definition dict_setitem (l : loc) (key : string) (value : Z) : M unit :=
  s ← get_state;
  set_dict l (<[key := value]> (heap s !!! l)).

(** [del d[key]] *)
Definition dict_delitem (l : loc) (key : string) : M unit :=
  s ← get_state;
  match (heap s !!! l) !! key with
  | Some _ => set_dict l (delete key (heap s !!! l))
  | None => raise KeyError
  end.

(** [d.keys()] *)
Definition dict_keys (l : loc) : M (list string) :=
  s ← get_state; mret (map_to_list (heap s !!! l)).*1.

(** *** bisect and list operations on [sorted_server_keys] *)

(** [bisect.bisect] is [bisect_right]:
    [while lo < hi: mid = (lo + hi) // 2;
       if x < a[mid]: hi = mid  else: lo = mid + 1]. *)
Fixpoint bisect_loop (fuel : nat) (a : list Z) (x : Z) (lo hi : nat) : nat :=
  match fuel with
  | O => lo
  | S fuel' =>
      if (lo <? hi)%nat then
        let mid := ((lo + hi) / 2)%nat in
        if x <? nth mid a 0 then bisect_loop fuel' a x lo mid
        else bisect_loop fuel' a x (mid + 1) hi
      else lo
  end.

Definition bisect (a : list Z) (x : Z) : nat :=
  bisect_loop (length a) a x 0 (length a).

(** [bisect.insort(a, x)]: [a.insert(bisect_right(a, x), x)]. *)
Definition insort (a : list Z) (x : Z) : list Z :=
  let lo := bisect a x in take lo a ++ x :: drop lo a.

(** [a.remove(x)]: drops the first occurrence, [None] for ValueError. *)
Fixpoint list_remove (x : Z) (a : list Z) : option (list Z) :=
  match a with
  | [] => None
  | y :: a' => if decide (y = x) then Some a' else (y ::.) <$> list_remove x a'
  end.

(** [a % b] on non-negative integers. *)
Definition py_mod (a b : nat) : M nat :=
  if decide (b = 0%nat) then raise ZeroDivisionError else mret (a mod b)%nat.

(** [a[i]] on a list, for a non-negative index. *)
Definition list_getitem (a : list Z) (i : nat) : M Z :=
  match a !! i with
  | Some x => mret x
  | None => raise IndexError
  end.

(** [self.ring[p]] *)
Definition ring_getitem (p : Z) : M ServerNode :=
  s ← get_state;
  match ring s !! p with
  | Some n => mret n
  | None => raise KeyError
  end.

(** [del self.ring[p]] *)
Definition ring_delitem (p : Z) : M unit :=
  s ← get_state;
  match ring s !! p with
  | Some _ => set_ring (delete p (ring s))
  | None => raise KeyError
  end.

(** [self.sorted_server_keys.remove(p)] *)
Definition sorted_server_keys_remove (p : Z) : M unit :=
  s ← get_state;
  match list_remove p (sorted_server_keys s) with
  | Some l => set_sorted_server_keys l
  | None => raise ValueError
  end.

(** ** class ServerNode *)

Module ServerNode.

(** [insert_data]: overriding an existing key only prints a warning. *)
Definition insert_data (self : ServerNode) (key : string) (value : Z) : M unit :=
  dict_setitem (data self) key value.

Definition remove_data (self : ServerNode) (key : string) : M unit :=
  dict_delitem (data self) key.

End ServerNode.

(** ** class ConsistentHashingRing *)

Module ConsistentHashingRing.

Definition get_successor_node (node : ServerNode) : M ServerNode :=
  let hashed_key := hash_fn (name node) in
  s ← get_state;
  successor_idx ← py_mod (bisect (sorted_server_keys s) hashed_key)
                    (length (sorted_server_keys s));
  p ← list_getitem (sorted_server_keys s) successor_idx;
  ring_getitem p.

Definition transfer_data (from_node to_node : ServerNode) (keys : list string)
  : M unit :=
  for_each keys (λ key,
    v ← dict_getitem (data from_node) key;
    ServerNode.insert_data to_node key v) ;;
  for_each keys (λ key, ServerNode.remove_data from_node key).

Definition add_server (node : ServerNode) : M unit :=
  let hashed_key := hash_fn (name node) in
  s ← get_state;
  if decide (is_Some (ring s !! hashed_key)) then raise KeyError
  else
    set_ring (<[hashed_key := node]> (ring s)) ;;
    set_sorted_server_keys (insort (sorted_server_keys s) hashed_key) ;;
    successor_node ← get_successor_node node;
    ks ← dict_keys (data successor_node);
    let keys_to_transfer :=
      filter (λ key, hash_fn key < hash_fn (name node)) ks in
    transfer_data successor_node node keys_to_transfer.

Definition remove_server (node : ServerNode) : M unit :=
  let hashed_key := hash_fn (name node) in
  successor_node ← get_successor_node node;
  keys_to_transfer ← dict_keys (data node);
  transfer_data node successor_node keys_to_transfer ;;
  ring_delitem hashed_key ;;
  sorted_server_keys_remove hashed_key.

Definition add_data (key : string) (value : Z) : M unit :=
  let hashed_key := hash_fn key in
  s ← get_state;
  let server_index := bisect (sorted_server_keys s) hashed_key in
  server_index ← py_mod server_index (length (sorted_server_keys s));
  p ← list_getitem (sorted_server_keys s) server_index;
  target_node ← ring_getitem p;
  ServerNode.insert_data target_node key value.

Definition remove_data (key : string) : M unit :=
  let hashed_key := hash_fn key in
  s ← get_state;
  let server_index := bisect (sorted_server_keys s) hashed_key in
  server_index ← py_mod server_index (length (sorted_server_keys s));
  p ← list_getitem (sorted_server_keys s) server_index;
  target_node ← ring_getitem p;
  ServerNode.remove_data target_node key.

End ConsistentHashingRing.

(** The methods of the ring are written [Ring.add_server] and so on. *)
Module Ring := ConsistentHashingRing.

Arguments hash_fn : simpl never.
#[global] Strategy opaque [hash_fn].
#[global] Opaque hash_fn.

(** * Vocabulary of the properties *)

(** ** Positions *)

(** What the loop has established when it stops at [r]. *)
Definition bisect_post (a : list Z) (x : Z) (r : nat) : Prop :=
  (r ≤ length a)%nat ∧
  (∀ i, (i < r)%nat → nth i a 0 ≤ x) ∧
  (∀ i, (r ≤ i)%nat → (i < length a)%nat → x < nth i a 0).

(** The circular successor of position [p] among [positions]: the
    smallest position strictly greater than [p], or the smallest position
    overall when none is greater. *)
Definition successor_position (positions : gset Z) (p q : Z) : Prop :=
  q ∈ positions ∧
  ((p < q ∧ set_Forall (λ q', p < q' → q ≤ q') positions) ∨
   (set_Forall (λ q', q' ≤ p) positions ∧
    set_Forall (λ q', q ≤ q') positions)).

#[global] Instance successor_position_dec positions p q :
  Decision (successor_position positions p q).
Proof. unfold successor_position. apply _. Defined.

(** The nearest registered position below [h]. *)
Definition predecessor_position (positions : gset Z) (h p : Z) : Prop :=
  p ∈ positions ∧ p < h ∧ set_Forall (λ p', p' < h → p' ≤ p) positions.

#[global] Instance predecessor_position_dec positions h p :
  Decision (predecessor_position positions h p).
Proof. unfold predecessor_position. apply _. Defined.

(** The result of the lookup that [get_successor_node], [add_data] and
    [remove_data] each perform, as a function of [ring], of
    [sorted_server_keys] and of the hashed key (see
    [get_successor_node_eq], [add_data_eq] and [remove_data_eq]). *)
Definition lookup_successor (r : gmap Z ServerNode) (a : list Z) (h : Z)
  : outcome ServerNode :=
  if decide (length a = 0%nat) then Raise ZeroDivisionError
  else match a !! (bisect a h mod length a)%nat with
       | None => Raise IndexError
       | Some p =>
           match r !! p with
           | None => Raise KeyError
           | Some n => Return n
           end
       end.

(** [sorted_server_keys] is strictly ascending (so free of duplicates)
    and holds exactly the keys of [ring]. *)
Definition ring_inv (s : State) : Prop :=
  StronglySorted Z.lt (sorted_server_keys s) ∧
  list_to_set (sorted_server_keys s) =@{gset Z} dom (ring s).

#[global] Instance ring_inv_dec s : Decision (ring_inv s).
Proof. unfold ring_inv. apply _. Defined.

(** The keys [add_server] selects in the store [m] of the successor. *)
Definition keys_below (h : Z) (m : gmap string Z) : list string :=
  filter (λ key, hash_fn key < h) (map_to_list m).*1.

(** The keys present in the stores of the registered nodes. *)
Definition stored_keys (s : State) : gset string :=
  ⋃ ((λ n : ServerNode, dom (heap s !!! data n)) <$> (map_to_list (ring s)).*2).

(** Registered nodes at different positions hold different dicts, with
    no key in common. *)
Definition stores_apart (s : State) : Prop :=
  ∀ p1 p2 n1 n2,
    ring s !! p1 = Some n1 → ring s !! p2 = Some n2 → p1 ≠ p2 →
    data n1 ≠ data n2 ∧
    dom (heap s !!! data n1) ## dom (heap s !!! data n2).

#[global] Instance stores_apart_dec s : Decision (stores_apart s).
Proof.
  refine (
    match decide (map_Forall
      (λ p1 n1, map_Forall
         (λ p2 n2, p1 ≠ p2 →
            data n1 ≠ data n2 ∧
            dom (heap s !!! data n1) ##@{gset string}
              dom (heap s !!! data n2))
         (ring s))
      (ring s))
    with
    | left Hall => left _
    | right Hno => right _
    end); unfold stores_apart, map_Forall in *.
  - intros p1 p2 n1 n2 H1 H2. exact (Hall p1 n1 H1 p2 n2 H2).
  - intros Hall. apply Hno. intros p1 n1 H1 p2 n2 H2.
    exact (Hall p1 p2 n1 n2 H1 H2).
Defined.

(** Every node is registered at the position its own name hashes to. *)
Definition ring_named (s : State) : Prop :=
  map_Forall (λ p n, hash_fn (name n) = p) (ring s).

(** ** Calls and states *)

(** The calls of the public methods, and the states they can reach from
    a fresh ring, whether the calls complete or raise; the servers are
    built by the caller, on dicts of any content. *)
Inductive call : Type :=
  | AddServer (node : ServerNode)
  | RemoveServer (node : ServerNode)
  | AddData (key : string) (value : Z)
  | RemoveData (key : string).

Definition do_call (c : call) : M unit :=
  match c with
  | AddServer node => Ring.add_server node
  | RemoveServer node => Ring.remove_server node
  | AddData key value => Ring.add_data key value
  | RemoveData key => Ring.remove_data key
  end.

Inductive reachable : State → Prop :=
  | reachable_init h : reachable (mkState ∅ [] h)
  | reachable_call c s : reachable s → reachable (do_call c s).1.

(** ** The driver's servers and some ring states

    The nodes of the demonstration at the end of ring.py, each built on
    a dict of its own, and states reached from the fresh ring by calls
    of the public methods. *)

Definition can1 : ServerNode := mkServerNode "can1" 1%positive.
Definition can2 : ServerNode := mkServerNode "can2" 2%positive.
Definition can3 : ServerNode := mkServerNode "can3" 3%positive.
Definition can5 : ServerNode := mkServerNode "can5" 5%positive.
Definition can6 : ServerNode := mkServerNode "can6" 6%positive.

(** The state a sequence of calls leaves behind. *)
Definition after (m : M unit) (s : State) : State := (m s).1.

(** One server holding one key. *)
Definition ring_one : State :=
  Eval vm_compute in
    after (Ring.add_server can1 ;; Ring.add_data "key1" 5) init.

(** Two servers, at 100 and 234; ["key476"] hashes to 201, ["key268"] to
    100 and ["key1"] to 117, so the three of them are stored on can3. *)
Definition ring_two : State :=
  Eval vm_compute in
    after (Ring.add_server can6 ;; Ring.add_server can3 ;;
           Ring.add_data "key476" 7 ;; Ring.add_data "key268" 8 ;;
           Ring.add_data "key1" 5) init.

(** [ring_two] with ["key6"], which hashes to 78, stored on can6. *)
Definition ring_wrap : State :=
  Eval vm_compute in after (Ring.add_data "key6" 8) ring_two.

(** [ring_two] with ["key2"], which hashes to 306, stored on can6, and
    a server whose position, 90, is below those of can6 and can3. *)
Definition ring_high : State :=
  Eval vm_compute in after (Ring.add_data "key2" 6) ring_two.

Definition can11 : ServerNode := mkServerNode "can11" 11%positive.

(** A server whose name collides with can3: both hash to 234. *)
Definition can58 : ServerNode := mkServerNode "can58" 58%positive.

(** A fresh ring, and a server can2 that was built on a dict with one
    entry. *)
Definition ring_stranger_base : State :=
  mkState ∅ [] {[2%positive := {["key2" := 6]}]}.

(** A ring that holds can1 only, and a server can2 that was built on a
    dict with one entry and never added. *)
Definition ring_stranger : State :=
  Eval vm_compute in
    after (Ring.add_server can1)
      (mkState ∅ [] {[2%positive := {["key2" := 6]}]}).


(** * Properties *)

(** ** Test vectors of RFC 1321 *)

Example md5_empty :
  MD5.int_of_hexdigest "" = 0xd41d8cd98f00b204e9800998ecf8427e.
Proof. vm_compute. reflexivity. Qed.

Example md5_abc :
  MD5.int_of_hexdigest "abc" = 0x900150983cd24fb0d6963f7d28e17f72.
Proof. vm_compute. reflexivity. Qed.

Example md5_two_blocks :
  MD5.int_of_hexdigest
    "ABCDEFGHIJKLMNOPQRSTUVWXYZabcdefghijklmnopqrstuvwxyz0123456789"
  = 0xd174ab98d277d9f5a5611c2c9f419d9f.
Proof. vm_compute. reflexivity. Qed.


(** ** bisect on a sorted list *)

Section bisect_facts.

Implicit Types (a : list Z) (x : Z).

Lemma StronglySorted_nth_lt a i j :
  StronglySorted Z.lt a → (i < j)%nat → (j < length a)%nat →
  nth i a 0 < nth j a 0.
Proof.
  intros Hs. revert i j.
  induction Hs as [|y a Hs IH Hy]; intros i j Hij Hj; simpl in *; [lia|].
  destruct j as [|j]; [lia|]. destruct i as [|i].
  - rewrite Forall_forall in Hy. apply Hy, list_elem_of_In, nth_In. lia.
  - apply IH; lia.
Qed.

Lemma StronglySorted_nth_le a i j :
  StronglySorted Z.lt a → (i ≤ j)%nat → (j < length a)%nat →
  nth i a 0 ≤ nth j a 0.
Proof.
  intros Hs Hij Hj. destruct (decide (i = j)) as [->|Hne]; [lia|].
  apply Z.lt_le_incl, StronglySorted_nth_lt; auto with lia.
Qed.

Lemma bisect_loop_S fuel a x lo hi :
  bisect_loop (S fuel) a x lo hi =
    if (lo <? hi)%nat then
      if x <? nth ((lo + hi) / 2) a 0
      then bisect_loop fuel a x lo ((lo + hi) / 2)
      else bisect_loop fuel a x ((lo + hi) / 2 + 1) hi
    else lo.
Proof. reflexivity. Qed.

Lemma bisect_loop_post a x fuel : ∀ lo hi,
  StronglySorted Z.lt a →
  (lo ≤ hi)%nat → (hi ≤ length a)%nat → (hi - lo ≤ fuel)%nat →
  (∀ i, (i < lo)%nat → nth i a 0 ≤ x) →
  (∀ i, (hi ≤ i)%nat → (i < length a)%nat → x < nth i a 0) →
  bisect_post a x (bisect_loop fuel a x lo hi).
Proof.
  induction fuel as [|fuel IH]; intros lo hi Hs Hlh Hhi Hf Hlo Hup.
  - assert (lo = hi) as -> by lia. by split_and!.
  - rewrite bisect_loop_S. destruct (Nat.ltb_spec lo hi) as [Hlt|Hge].
    + pose proof (Nat.Div0.div_le_upper_bound (lo + hi) 2 hi ltac:(lia)) as Hm1.
      pose proof (Nat.div_le_lower_bound (lo + hi) 2 lo ltac:(lia) ltac:(lia)) as Hm2.
      assert ((lo + hi) / 2 < hi)%nat as Hm3.
      { apply Nat.Div0.div_lt_upper_bound. lia. }
      set (mid := ((lo + hi) / 2)%nat) in *.
      destruct (Z.ltb_spec x (nth mid a 0)) as [Hx|Hx].
      * apply IH; auto with lia.
        intros i Hi1 Hi2.
        pose proof (StronglySorted_nth_le a mid i Hs Hi1 Hi2). lia.
      * apply IH; auto with lia.
        intros i Hi.
        pose proof (StronglySorted_nth_le a i mid Hs ltac:(lia) ltac:(lia)). lia.
    + assert (lo = hi) as -> by lia. by split_and!.
Qed.

Lemma bisect_spec a x : StronglySorted Z.lt a → bisect_post a x (bisect a x).
Proof.
  intros Hs. apply bisect_loop_post; auto with lia.
Qed.

(** More fuel than the width of the interval changes nothing. *)
Lemma bisect_loop_fuel a x f1 : ∀ f2 lo hi,
  (hi - lo ≤ f1)%nat → (hi - lo ≤ f2)%nat →
  bisect_loop f1 a x lo hi = bisect_loop f2 a x lo hi.
Proof.
  induction f1 as [|f1 IH]; intros f2 lo hi H1 H2.
  - destruct f2; [done|]. rewrite bisect_loop_S.
    destruct (Nat.ltb_spec lo hi); [lia|done].
  - destruct f2 as [|f2]; rewrite !bisect_loop_S.
    + destruct (Nat.ltb_spec lo hi); [lia|done].
    + destruct (Nat.ltb_spec lo hi) as [Hlt|]; [|done].
      assert ((lo + hi) / 2 < hi)%nat.
      { apply Nat.Div0.div_lt_upper_bound. lia. }
      assert (lo ≤ (lo + hi) / 2)%nat.
      { apply Nat.div_le_lower_bound; lia. }
      destruct (x <? nth ((lo + hi) / 2) a 0); apply IH; lia.
Qed.

Lemma bisect_post_take a x r :
  bisect_post a x r → Forall (λ y, y ≤ x) (take r a).
Proof.
  intros (Hr & Hlo & _). apply Forall_forall. intros y Hy.
  apply list_elem_of_lookup in Hy as [i Hi].
  pose proof (lookup_lt_Some _ _ _ Hi) as Hlen. rewrite length_take in Hlen.
  rewrite lookup_take_lt in Hi by lia.
  rewrite <- (nth_lookup_Some _ _ 0 _ Hi). apply Hlo. lia.
Qed.

Lemma bisect_post_drop a x r :
  bisect_post a x r → Forall (λ y, x < y) (drop r a).
Proof.
  intros (Hr & _ & Hup). apply Forall_forall. intros y Hy.
  apply list_elem_of_lookup in Hy as [i Hi].
  rewrite lookup_drop in Hi.
  pose proof (lookup_lt_Some _ _ _ Hi) as Hlen.
  rewrite <- (nth_lookup_Some _ _ 0 _ Hi). apply Hup; lia.
Qed.

End bisect_facts.

(** ** The sorted list of positions *)

Section sorted_keys_facts.

Implicit Types (a : list Z) (x : Z).

Lemma length_insort a x : length (insort a x) = S (length a).
Proof.
  unfold insort.
  assert (length (take (bisect a x) a ++ drop (bisect a x) a) = length a) as H
    by (by rewrite take_drop).
  rewrite length_app in H. rewrite length_app, length_cons. lia.
Qed.

Lemma elem_of_insort a x y : y ∈ insort a x ↔ y = x ∨ y ∈ a.
Proof.
  unfold insort. rewrite elem_of_app, elem_of_cons.
  assert (y ∈ a ↔ y ∈ take (bisect a x) a ∨ y ∈ drop (bisect a x) a) as Ha
    by (by rewrite <- elem_of_app, take_drop).
  tauto.
Qed.

Lemma insort_sorted a x :
  StronglySorted Z.lt a → x ∉ a → StronglySorted Z.lt (insort a x).
Proof.
  intros Hs Hx. pose proof (bisect_spec a x Hs) as Hpost.
  pose proof (bisect_post_take _ _ _ Hpost) as Ht.
  pose proof (bisect_post_drop _ _ _ Hpost) as Hd.
  rewrite Forall_forall in Ht, Hd.
  rewrite <- (take_drop (bisect a x) a) in Hs, Hx.
  apply StronglySorted_app in Hs as (Hcross & Hs1 & Hs2).
  rewrite elem_of_app in Hx.
  unfold insort. apply StronglySorted_app. split_and!.
  - intros y z Hy Hz. apply elem_of_cons in Hz as [->|Hz].
    + specialize (Ht y Hy). simpl in Ht.
      assert (y ≠ x) by (intros ->; tauto). lia.
    + by apply Hcross.
  - done.
  - apply StronglySorted_cons. split; [|done].
    apply Forall_forall. intros z Hz. by apply Hd.
Qed.

Lemma list_remove_is_Some a x : x ∈ a → is_Some (list_remove x a).
Proof.
  induction a as [|y a IH]; simpl; [by intros ?%elem_of_nil|].
  intros [->|Hx]%elem_of_cons.
  - rewrite decide_True by done. eauto.
  - destruct (decide (y = x)); [eauto|].
    destruct (IH Hx) as [l ->]. simpl. eauto.
Qed.

Lemma list_remove_None a x : x ∉ a → list_remove x a = None.
Proof.
  induction a as [|y a IH]; simpl; [done|].
  rewrite not_elem_of_cons. intros [Hne Hx].
  rewrite decide_False by done. by rewrite IH.
Qed.

Lemma list_remove_sorted a x l :
  StronglySorted Z.lt a → list_remove x a = Some l →
  StronglySorted Z.lt l ∧ ∀ y, y ∈ l ↔ y ∈ a ∧ y ≠ x.
Proof.
  intros Hs. revert l.
  induction Hs as [|y a Hs IH Hy]; intros l; simpl; [done|].
  rewrite Forall_forall in Hy.
  destruct (decide (y = x)) as [->|Hne].
  - intros [= <-]. split; [done|]. intros z. rewrite elem_of_cons.
    split; [|by intros [[->|?] ?]]. intros Hz. specialize (Hy z Hz).
    simpl in Hy. split; [by right|lia].
  - destruct (list_remove x a) as [l'|] eqn:Hrem; [|done].
    simpl. intros [= <-]. destruct (IH l' eq_refl) as [Hs' Hel].
    split.
    + apply StronglySorted_cons. split; [|done].
      apply Forall_forall. intros z Hz. apply Hy. by apply Hel.
    + intros z. rewrite !elem_of_cons, Hel. split.
      * intros [->|[? ?]]; auto.
      * intros [[->|?] ?]; auto.
Qed.

Lemma lookup_nth a i : (i < length a)%nat → a !! i = Some (nth i a 0).
Proof.
  intros Hi. destruct (nth_lookup_or_length a i 0); [done|lia].
Qed.

Lemma elem_of_nth a y :
  y ∈ a ↔ ∃ i, (i < length a)%nat ∧ nth i a 0 = y.
Proof.
  rewrite list_elem_of_lookup. split.
  - intros [i Hi]. exists i. split; [by eapply lookup_lt_Some|].
    by apply nth_lookup_Some.
  - intros (i & Hi & <-). exists i. by apply lookup_nth.
Qed.

Lemma bisect_successor a x :
  StronglySorted Z.lt a → a ≠ [] →
  ∃ q, a !! (bisect a x mod length a)%nat = Some q ∧
       successor_position (list_to_set a) x q.
Proof.
  intros Hs Hne.
  assert (0 < length a)%nat as Hlen by (destruct a; simpl; [done|lia]).
  destruct (bisect_spec a x Hs) as (Hr & Hlo & Hup).
  set (r := bisect a x) in *.
  pose proof (lookup_nth a) as Hnth.
  destruct (decide (r < length a)%nat) as [Hlt|Hge].
  - exists (nth r a 0). rewrite Nat.mod_small by done.
    split; [by apply Hnth|]. split.
    + apply elem_of_list_to_set, elem_of_nth. eauto.
    + left. split; [by apply Hup|].
      intros q' [j [Hj <-]]%elem_of_list_to_set%elem_of_nth Hq'.
      apply StronglySorted_nth_le; [done| |done].
      destruct (decide (r ≤ j)%nat); [done|].
      specialize (Hlo j ltac:(lia)). lia.
  - assert (r = length a) as -> by lia.
    exists (nth 0 a 0). rewrite Nat.Div0.mod_same.
    split; [by apply Hnth|]. split.
    + apply elem_of_list_to_set, elem_of_nth. eauto.
    + right. split.
      * intros q' [j [Hj <-]]%elem_of_list_to_set%elem_of_nth. by apply Hlo.
      * intros q' [j [Hj <-]]%elem_of_list_to_set%elem_of_nth.
        apply StronglySorted_nth_le; [done|lia|done].
Qed.

End sorted_keys_facts.

(** ** The state monad and the dict operations *)

Ltac munfold :=
  unfold mbind, M_bind, mret, M_ret, raise, get_state, set_ring,
    set_sorted_server_keys, set_dict.

Lemma for_each_cons {A} (x : A) l body s :
  for_each (x :: l) body s =
    match body x s with
    | (s', Return _) => for_each l body s'
    | (s', Raise e) => (s', Raise e)
    end.
Proof. reflexivity. Qed.

Section node_facts.

Implicit Types (s : State) (n : ServerNode) (key : string).

Lemma insert_data_eq n key value s :
  ServerNode.insert_data n key value s =
    (mkState (ring s) (sorted_server_keys s)
       (<[data n := <[key := value]> (heap s !!! data n)]> (heap s)),
     Return tt).
Proof. reflexivity. Qed.

Lemma remove_data_Some n key v s :
  (heap s !!! data n) !! key = Some v →
  ServerNode.remove_data n key s =
    (mkState (ring s) (sorted_server_keys s)
       (<[data n := delete key (heap s !!! data n)]> (heap s)),
     Return tt).
Proof.
  intros H. unfold ServerNode.remove_data, dict_delitem. munfold. by rewrite H.
Qed.

Lemma remove_data_None n key s :
  (heap s !!! data n) !! key = None →
  ServerNode.remove_data n key s = (s, Raise KeyError).
Proof.
  intros H. unfold ServerNode.remove_data, dict_delitem. munfold. by rewrite H.
Qed.

Lemma copy_step from_node to_node key v s :
  (heap s !!! data from_node) !! key = Some v →
  (v ← dict_getitem (data from_node) key;
   ServerNode.insert_data to_node key v) s =
    (mkState (ring s) (sorted_server_keys s)
       (<[data to_node := <[key := v]> (heap s !!! data to_node)]> (heap s)),
     Return tt).
Proof.
  intros H. unfold dict_getitem. munfold. by rewrite H.
Qed.

(** The first loop of [transfer_data]: every listed key of the source
    is written to the destination; nothing else changes. *)
Lemma copy_loop from_node to_node keys : ∀ s,
  (∀ k, k ∈ keys → is_Some ((heap s !!! data from_node) !! k)) →
  ∃ h',
    for_each keys (λ key,
      v ← dict_getitem (data from_node) key;
      ServerNode.insert_data to_node key v) s =
      (mkState (ring s) (sorted_server_keys s) h', Return tt) ∧
    (∀ l, l ≠ data to_node → h' !!! l = heap s !!! l) ∧
    (∀ k, (h' !!! data to_node) !! k =
            if decide (k ∈ keys) then (heap s !!! data from_node) !! k
            else (heap s !!! data to_node) !! k).
Proof.
  induction keys as [|key keys IH]; intros s Hin.
  - exists (heap s). split_and!; [by destruct s|done|].
    intros k. by rewrite decide_False by apply not_elem_of_nil.
  - destruct (Hin key) as [v Hv]; [by left|].
    rewrite for_each_cons, (copy_step _ _ _ v) by done.
    set (s1 := mkState _ _ _).
    assert (heap s1 !!! data from_node = heap s !!! data from_node) as Hfrom.
    { simpl. destruct (decide (data to_node = data from_node)) as [->|Hne].
      - rewrite lookup_total_insert_eq. by apply insert_id.
      - by rewrite lookup_total_insert_ne. }
    destruct (IH s1) as (h' & Hrun & Hother & Hto).
    { intros k Hk. rewrite Hfrom. apply Hin. by right. }
    exists h'. split_and!; [done | |].
    + intros l Hl. rewrite Hother by done. simpl.
      by rewrite lookup_total_insert_ne.
    + intros k. rewrite Hto, Hfrom. simpl. rewrite lookup_total_insert_eq.
      destruct (decide (k ∈ keys)) as [Hk|Hk].
      * rewrite decide_True; [done|by right].
      * destruct (decide (k = key)) as [->|Hne].
        -- rewrite lookup_insert_eq, decide_True; [done|by left].
        -- rewrite lookup_insert_ne by done.
           rewrite decide_False; [done|].
           rewrite not_elem_of_cons. done.
Qed.

(** The second loop: every listed key is deleted from the source. *)
Lemma delete_loop from_node keys : ∀ s,
  NoDup keys →
  (∀ k, k ∈ keys → is_Some ((heap s !!! data from_node) !! k)) →
  ∃ h',
    for_each keys (λ key, ServerNode.remove_data from_node key) s =
      (mkState (ring s) (sorted_server_keys s) h', Return tt) ∧
    (∀ l, l ≠ data from_node → h' !!! l = heap s !!! l) ∧
    (∀ k, (h' !!! data from_node) !! k =
            if decide (k ∈ keys) then None
            else (heap s !!! data from_node) !! k).
Proof.
  induction keys as [|key keys IH]; intros s Hnd Hin.
  - exists (heap s). split_and!; [by destruct s|done|].
    intros k. by rewrite decide_False by apply not_elem_of_nil.
  - apply NoDup_cons in Hnd as [Hkey Hnd].
    destruct (Hin key) as [v Hv]; [by left|].
    rewrite for_each_cons, (remove_data_Some _ _ v) by done.
    set (s1 := mkState _ _ _).
    destruct (IH s1 Hnd) as (h' & Hrun & Hother & Hfrom).
    { intros k Hk. simpl. rewrite lookup_total_insert_eq.
      rewrite lookup_delete_ne by (by intros ->). apply Hin. by right. }
    exists h'. split_and!; [done | |].
    + intros l Hl. rewrite Hother by done. simpl.
      by rewrite lookup_total_insert_ne.
    + intros k. rewrite Hfrom. simpl. rewrite lookup_total_insert_eq.
      destruct (decide (k ∈ keys)) as [Hk|Hk].
      * rewrite decide_True; [done|by right].
      * destruct (decide (k = key)) as [->|Hne].
        -- rewrite lookup_delete_eq, decide_True; [done|by left].
        -- rewrite lookup_delete_ne by done.
           rewrite decide_False; [done|].
           rewrite not_elem_of_cons. done.
Qed.

End node_facts.

(** ** The methods of the ring, step by step *)

Section ring_facts.

Implicit Types (s : State) (n node : ServerNode) (key : string).

Lemma elem_of_keys (m : gmap string Z) k :
  k ∈ (map_to_list m).*1 ↔ is_Some (m !! k).
Proof.
  rewrite list_elem_of_fmap. split.
  - intros ([k' v] & -> & Hkv). apply elem_of_map_to_list in Hkv. eauto.
  - intros [v Hv]. exists (k, v). split; [done|].
    by apply elem_of_map_to_list.
Qed.

Lemma transfer_data_spec from_node to_node keys s :
  NoDup keys →
  (∀ k, k ∈ keys → is_Some ((heap s !!! data from_node) !! k)) →
  ∃ h',
    Ring.transfer_data from_node to_node keys s =
      (mkState (ring s) (sorted_server_keys s) h', Return tt) ∧
    (∀ l, l ≠ data from_node → l ≠ data to_node → h' !!! l = heap s !!! l) ∧
    (∀ k, (h' !!! data from_node) !! k =
            if decide (k ∈ keys) then None
            else (heap s !!! data from_node) !! k) ∧
    (data to_node ≠ data from_node →
     ∀ k, (h' !!! data to_node) !! k =
            if decide (k ∈ keys) then (heap s !!! data from_node) !! k
            else (heap s !!! data to_node) !! k).
Proof.
  intros Hnd Hin.
  destruct (copy_loop from_node to_node keys s Hin) as (h1 & Hrun1 & Hoth1 & Hto1).
  set (s1 := mkState (ring s) (sorted_server_keys s) h1) in *.
  assert (∀ k, k ∈ keys →
    (heap s1 !!! data from_node) !! k = (heap s !!! data from_node) !! k) as Hsame.
  { intros k Hk. simpl.
    destruct (decide (data from_node = data to_node)) as [Heq|Hne].
    - rewrite Heq, Hto1, decide_True by done. by rewrite Heq.
    - by rewrite Hoth1. }
  destruct (delete_loop from_node keys s1 Hnd) as (h2 & Hrun2 & Hoth2 & Hfrom2).
  { intros k Hk. rewrite Hsame by done. by apply Hin. }
  exists h2. split_and!.
  - unfold Ring.transfer_data. unfold mbind at 1, M_bind at 1.
    by rewrite Hrun1.
  - intros l Hl1 Hl2. rewrite Hoth2 by done. simpl. by apply Hoth1.
  - intros k. rewrite Hfrom2. destruct (decide (k ∈ keys)); [done|]. simpl.
    destruct (decide (data from_node = data to_node)) as [Heq|Hne].
    + rewrite Heq, Hto1, decide_False by done. done.
    + by rewrite Hoth1.
  - intros Hne k. rewrite Hoth2 by done. simpl. apply Hto1.
Qed.

Ltac locate :=
  unfold py_mod, list_getitem, ring_getitem, lookup_successor; munfold;
  match goal with
  | |- context [decide (length ?a = 0%nat)] =>
      destruct (decide (length a = 0%nat)); [done|]
  end;
  match goal with
  | |- context [sorted_server_keys ?s !! ?i] =>
      destruct (sorted_server_keys s !! i) as [p|]; [|done];
      by destruct (ring s !! p)
  end.

Lemma get_successor_node_eq node s :
  Ring.get_successor_node node s =
    (s, lookup_successor (ring s) (sorted_server_keys s) (hash_fn (name node))).
Proof. unfold Ring.get_successor_node. locate. Qed.

Lemma add_data_eq key value s :
  Ring.add_data key value s =
    match lookup_successor (ring s) (sorted_server_keys s) (hash_fn key) with
    | Return target_node => ServerNode.insert_data target_node key value s
    | Raise e => (s, Raise e)
    end.
Proof. unfold Ring.add_data. locate. Qed.

Lemma remove_data_eq key s :
  Ring.remove_data key s =
    match lookup_successor (ring s) (sorted_server_keys s) (hash_fn key) with
    | Return target_node => ServerNode.remove_data target_node key s
    | Raise e => (s, Raise e)
    end.
Proof. unfold Ring.remove_data. locate. Qed.

Lemma add_server_duplicate node s :
  is_Some (ring s !! hash_fn (name node)) →
  Ring.add_server node s = (s, Raise KeyError).
Proof.
  intros H. unfold Ring.add_server. munfold. by rewrite decide_True.
Qed.

Lemma add_server_fresh node s :
  ring s !! hash_fn (name node) = None →
  Ring.add_server node s =
    let h := hash_fn (name node) in
    let s1 := mkState (<[h := node]> (ring s))
                (insort (sorted_server_keys s) h) (heap s) in
    match lookup_successor (ring s1) (sorted_server_keys s1) h with
    | Return successor_node =>
        Ring.transfer_data successor_node node
          (filter (λ key, hash_fn key < h)
             (map_to_list (heap s !!! data successor_node)).*1) s1
    | Raise e => (s1, Raise e)
    end.
Proof.
  intros H. unfold Ring.add_server. munfold.
  rewrite decide_False by (rewrite H; by intros [? ?]).
  cbv zeta. rewrite get_successor_node_eq. cbn [ring sorted_server_keys heap].
  destruct (lookup_successor _ _ _); [|done].
  done.
Qed.

Lemma remove_server_eq node s :
  Ring.remove_server node s =
    let h := hash_fn (name node) in
    match lookup_successor (ring s) (sorted_server_keys s) h with
    | Return successor_node =>
        match Ring.transfer_data node successor_node
                (map_to_list (heap s !!! data node)).*1 s with
        | (s', Return _) =>
            match ring s' !! h with
            | None => (s', Raise KeyError)
            | Some _ =>
                match list_remove h (sorted_server_keys s') with
                | None =>
                    (mkState (delete h (ring s')) (sorted_server_keys s')
                       (heap s'), Raise ValueError)
                | Some l => (mkState (delete h (ring s')) l (heap s'), Return tt)
                end
            end
        | (s', Raise e) => (s', Raise e)
        end
    | Raise e => (s, Raise e)
    end.
Proof.
  unfold Ring.remove_server. unfold mbind at 1, M_bind at 1.
  rewrite get_successor_node_eq. cbv zeta.
  destruct (lookup_successor _ _ _) as [succ|e]; [|done].
  munfold. unfold dict_keys. munfold.
  destruct (Ring.transfer_data _ _ _ s) as [s' [[]|e]]; [|done].
  unfold ring_delitem, sorted_server_keys_remove. munfold.
  destruct (ring s' !! _); [|done]. simpl.
  by destruct (list_remove _ _).
Qed.

End ring_facts.

(** ** The invariant of the position index *)

Lemma ring_inv_init : ring_inv init.
Proof. split; [constructor|]. simpl. by rewrite dom_empty_L. Qed.

Lemma ring_inv_elem_of s p :
  ring_inv s → p ∈ sorted_server_keys s ↔ is_Some (ring s !! p).
Proof.
  intros [_ Hdom]. by rewrite <- elem_of_dom, <- Hdom, elem_of_list_to_set.
Qed.

Lemma ring_inv_NoDup s : ring_inv s → NoDup (sorted_server_keys s).
Proof.
  intros [Hs _]. induction Hs as [|p a Hs IH Hp]; constructor; [|done].
  rewrite Forall_forall in Hp. intros Hin. specialize (Hp p Hin). lia.
Qed.

Lemma ring_inv_nonempty s :
  ring_inv s → ring s ≠ ∅ → sorted_server_keys s ≠ [].
Proof.
  intros [_ Hdom] Hne Hnil. rewrite Hnil in Hdom. simpl in Hdom.
  apply Hne. by apply dom_empty_iff_L.
Qed.

Lemma lookup_successor_inv s h :
  ring_inv s → sorted_server_keys s ≠ [] →
  ∃ q succ,
    lookup_successor (ring s) (sorted_server_keys s) h = Return succ ∧
    ring s !! q = Some succ ∧
    successor_position (dom (ring s)) h q.
Proof.
  intros Hinv Hne. pose proof Hinv as [Hs Hdom].
  destruct (bisect_successor _ h Hs Hne) as (q & Hq & Hsucc).
  rewrite Hdom in Hsucc.
  assert (is_Some (ring s !! q)) as [succ Hsuccq].
  { apply elem_of_dom. by destruct Hsucc. }
  exists q, succ. split_and!; [|done..].
  unfold lookup_successor. rewrite decide_False.
  - by rewrite Hq, Hsuccq.
  - destruct (sorted_server_keys s); simpl; [done|lia].
Qed.

Lemma lookup_successor_nil r h :
  lookup_successor r [] h = Raise ZeroDivisionError.
Proof. reflexivity. Qed.

(** ** Membership changes *)

Section membership_facts.

Implicit Types (s : State) (n node : ServerNode) (key : string).

Lemma lookup_filter_key (P : string → Prop) `{∀ k, Decision (P k)}
    (m : gmap string Z) k :
  filter (λ kv, P kv.1) m !! k = if decide (P k) then m !! k else None.
Proof.
  rewrite map_lookup_filter. destruct (m !! k) as [v|]; simpl.
  - destruct (decide (P k)).
    + by rewrite option_guard_True.
    + by rewrite option_guard_False.
  - by destruct (decide (P k)).
Qed.

Lemma elem_of_keys_below h m k :
  k ∈ keys_below h m ↔ hash_fn k < h ∧ is_Some (m !! k).
Proof. unfold keys_below. by rewrite list_elem_of_filter, elem_of_keys. Qed.

Lemma NoDup_keys_below h m : NoDup (keys_below h m).
Proof. apply NoDup_filter, NoDup_fst_map_to_list. Qed.

(** Every way [add_server] can end. *)
Lemma add_server_cases node s :
  let h := hash_fn (name node) in
  let s1 := mkState (<[h := node]> (ring s))
              (insort (sorted_server_keys s) h) (heap s) in
  (is_Some (ring s !! h) ∧ Ring.add_server node s = (s, Raise KeyError)) ∨
  (ring s !! h = None ∧
   ((∃ e, lookup_successor (ring s1) (sorted_server_keys s1) h = Raise e ∧
          Ring.add_server node s = (s1, Raise e)) ∨
    (∃ succ h',
       lookup_successor (ring s1) (sorted_server_keys s1) h = Return succ ∧
       Ring.add_server node s =
         (mkState (ring s1) (sorted_server_keys s1) h', Return tt) ∧
       (∀ l, l ≠ data succ → l ≠ data node → h' !!! l = heap s !!! l) ∧
       h' !!! data succ =
         filter (λ kv, ¬ hash_fn kv.1 < h) (heap s !!! data succ) ∧
       (data node ≠ data succ →
        h' !!! data node =
          filter (λ kv, hash_fn kv.1 < h) (heap s !!! data succ)
            ∪ (heap s !!! data node))))).
Proof.
  intros h s1. destruct (ring s !! h) as [n0|] eqn:Hh.
  { left. split; [eauto|]. apply add_server_duplicate. fold h. eauto. }
  right. split; [done|]. rewrite add_server_fresh by done.
  cbv zeta. fold h. fold s1.
  destruct (lookup_successor (ring s1) (sorted_server_keys s1) h)
    as [succ|e] eqn:Hsucc; [right|left; eauto].
  fold (keys_below h (heap s !!! data succ)).
  destruct (transfer_data_spec succ node
              (keys_below h (heap s !!! data succ)) s1)
    as (h' & Hrun & Hother & Hfrom & Hto).
  { apply NoDup_keys_below. }
  { intros k Hk. apply elem_of_keys_below in Hk. simpl. tauto. }
  exists succ, h'. split_and!; [done|done|done| |].
  - apply map_eq. intros k. rewrite Hfrom. simpl.
    pose proof (lookup_filter_key (λ k, ¬ hash_fn k < h)
                  (heap s !!! data succ) k) as E.
    cbv beta in E. rewrite E. clear E.
    destruct (decide (k ∈ keys_below h (heap s !!! data succ))) as [Hk|Hk].
    + apply elem_of_keys_below in Hk as [Hlt _]. by rewrite decide_False by tauto.
    + rewrite elem_of_keys_below in Hk.
      destruct (decide (¬ hash_fn k < h)) as [|Hlt]; [done|].
      destruct ((heap s !!! data succ) !! k) eqn:Hv; [|done].
      exfalso. apply Hk. split; [|eauto].
      destruct (decide (hash_fn k < h)); tauto.
  - intros Hne. apply map_eq. intros k. rewrite Hto by done. simpl.
    pose proof (lookup_filter_key (λ k, hash_fn k < h)
                  (heap s !!! data succ) k) as E.
    cbv beta in E. rewrite lookup_union, E. clear E.
    destruct (decide (k ∈ keys_below h (heap s !!! data succ))) as [Hk|Hk].
    + apply elem_of_keys_below in Hk as [Hlt [v Hv]].
      rewrite decide_True, Hv by done.
      by destruct ((heap s !!! data node) !! k).
    + rewrite elem_of_keys_below in Hk.
      destruct (decide (hash_fn k < h)) as [Hlt|]; [|by rewrite (left_id_L None _)].
      destruct ((heap s !!! data succ) !! k) eqn:Hv.
      * exfalso. apply Hk. eauto.
      * by rewrite (left_id_L None _).
Qed.

End membership_facts.

Section membership_invariant.

Implicit Types (s : State) (n node : ServerNode) (key : string).

Lemma ring_inv_register node s :
  let h := hash_fn (name node) in
  ring_inv s → ring s !! h = None →
  ring_inv (mkState (<[h := node]> (ring s))
              (insort (sorted_server_keys s) h) (heap s)).
Proof.
  intros h Hinv Hh. pose proof Hinv as [Hs Hdom]. split; simpl.
  - apply insort_sorted; [done|].
    rewrite (ring_inv_elem_of s h Hinv), Hh. by intros [? ?].
  - apply set_eq. intros p.
    rewrite elem_of_list_to_set, elem_of_insort, dom_insert_L, <- Hdom.
    rewrite elem_of_union, elem_of_singleton, elem_of_list_to_set. done.
Qed.

Lemma ring_inv_heap s h' :
  ring_inv s → ring_inv (mkState (ring s) (sorted_server_keys s) h').
Proof. by intros [? ?]. Qed.

(** On a ring that satisfies the invariant, [add_server] of a node at a
    free position always completes. *)
Lemma add_server_fresh_inv node s :
  let h := hash_fn (name node) in
  let r1 := <[h := node]> (ring s) in
  ring_inv s → ring s !! h = None →
  ∃ q succ h',
    Ring.add_server node s =
      (mkState r1 (insort (sorted_server_keys s) h) h', Return tt) ∧
    r1 !! q = Some succ ∧
    successor_position (dom r1) h q ∧
    (∀ l, l ≠ data succ → l ≠ data node → h' !!! l = heap s !!! l) ∧
    h' !!! data succ =
      filter (λ kv, ¬ hash_fn kv.1 < h) (heap s !!! data succ) ∧
    (data node ≠ data succ →
     h' !!! data node =
       filter (λ kv, hash_fn kv.1 < h) (heap s !!! data succ)
         ∪ (heap s !!! data node)).
Proof.
  intros h r1 Hinv Hh.
  pose proof (ring_inv_register node s Hinv Hh) as Hinv1. fold h in Hinv1.
  destruct (lookup_successor_inv _ h Hinv1) as (q & succ & Hlook & Hq & Hsucc).
  { simpl. intros Hnil. pose proof (length_insort (sorted_server_keys s) h) as Hl.
    by rewrite Hnil in Hl. }
  simpl in Hlook, Hq, Hsucc.
  destruct (add_server_cases node s) as [[[? Hc] _]|[_ [(e & He & _)|Hok]]].
  - fold h in Hc. congruence.
  - simpl in He. fold h in He. congruence.
  - destruct Hok as (succ' & h' & Hlook' & Hrun & Hother & Hfrom & Hto).
    simpl in Hlook'. fold h in Hlook'.
    assert (succ' = succ) as -> by congruence.
    exists q, succ, h'. by split_and!.
Qed.

End membership_invariant.

Section removal_facts.

Implicit Types (s : State) (n node : ServerNode) (key : string).


(** Every way [remove_server] can end. *)
Lemma remove_server_cases node s :
  let h := hash_fn (name node) in
  (∃ e, lookup_successor (ring s) (sorted_server_keys s) h = Raise e ∧
        Ring.remove_server node s = (s, Raise e)) ∨
  (∃ succ h',
     lookup_successor (ring s) (sorted_server_keys s) h = Return succ ∧
     (∀ l, l ≠ data node → l ≠ data succ → h' !!! l = heap s !!! l) ∧
     h' !!! data node = ∅ ∧
     (data succ ≠ data node →
      h' !!! data succ = (heap s !!! data node) ∪ (heap s !!! data succ)) ∧
     Ring.remove_server node s =
       match ring s !! h with
       | None => (mkState (ring s) (sorted_server_keys s) h', Raise KeyError)
       | Some _ =>
           match list_remove h (sorted_server_keys s) with
           | None =>
               (mkState (delete h (ring s)) (sorted_server_keys s) h',
                Raise ValueError)
           | Some l => (mkState (delete h (ring s)) l h', Return tt)
           end
       end).
Proof.
  intros h. rewrite remove_server_eq. cbv zeta. fold h.
  destruct (lookup_successor (ring s) (sorted_server_keys s) h)
    as [succ|e] eqn:Hsucc; [right|left; eauto].
  destruct (transfer_data_spec node succ
              (map_to_list (heap s !!! data node)).*1 s)
    as (h' & Hrun & Hother & Hfrom & Hto).
  { apply NoDup_fst_map_to_list. }
  { intros k Hk. by apply elem_of_keys. }
  exists succ, h'. rewrite Hrun. simpl. split_and!; [done|done| | |done].
  - apply map_eq. intros k. rewrite Hfrom, lookup_empty.
    destruct (decide _) as [|Hk]; [done|].
    rewrite elem_of_keys in Hk.
    destruct ((heap s !!! data node) !! k) eqn:Hv; [|done].
    exfalso. apply Hk. eauto.
  - intros Hne. apply map_eq. intros k. rewrite Hto, lookup_union by done.
    destruct (decide _) as [Hk|Hk].
    + apply elem_of_keys in Hk as [v Hv]. rewrite Hv.
      by destruct ((heap s !!! data succ) !! k).
    + rewrite elem_of_keys in Hk.
      destruct ((heap s !!! data node) !! k) eqn:Hv.
      * exfalso. apply Hk. eauto.
      * by rewrite (left_id_L None _).
Qed.

End removal_facts.

(** ** Keys across a membership change *)

Section keys_kept.

Implicit Types (s : State) (node succ : ServerNode) (k : string).

Lemma elem_of_stored_keys s k :
  k ∈ stored_keys s ↔
  ∃ p n, ring s !! p = Some n ∧ is_Some ((heap s !!! data n) !! k).
Proof.
  unfold stored_keys. rewrite elem_of_union_list. split.
  - intros (X & HX & Hk).
    apply list_elem_of_fmap in HX as (n & -> & Hn).
    apply list_elem_of_fmap in Hn as ([p n'] & -> & Hpn).
    apply elem_of_map_to_list in Hpn. apply elem_of_dom in Hk. eauto.
  - intros (p & n & Hpn & Hk). exists (dom (heap s !!! data n)).
    split; [|by apply elem_of_dom].
    apply list_elem_of_fmap. exists n. split; [done|].
    apply list_elem_of_fmap. exists (p, n). split; [done|].
    by apply elem_of_map_to_list.
Qed.

(** With two positions registered, the successor is at another position. *)
Lemma successor_position_other (positions : gset Z) h q q0 :
  successor_position positions h q → q0 ∈ positions → q0 ≠ h → q ≠ h.
Proof.
  intros (_ & [[Hlt _]|[Hall Hmin]]) Hq0 Hne; [lia|].
  specialize (Hall q0 Hq0). specialize (Hmin q0 Hq0). simpl in *. lia.
Qed.

(** [remove_server] of a registered node whose dict no other registered
    node shares, on a ring with another node: the call completes and the
    keys of the registered stores are the same before and after. *)
Lemma remove_server_keeps_keys node s q0 :
  let h := hash_fn (name node) in
  ring_inv s → ring s !! h = Some node →
  is_Some (ring s !! q0) → q0 ≠ h →
  (∀ q n, ring s !! q = Some n → q ≠ h → data n ≠ data node) →
  ∃ s',
    Ring.remove_server node s = (s', Return tt) ∧
    stored_keys s' = stored_keys s.
Proof.
  intros h Hinv Hh Hq0 Hq0h Hapart.
  destruct (lookup_successor_inv s h Hinv) as (q & succ & Hlook & Hq & Hsucc).
  { apply ring_inv_nonempty; [done|]. intros Hempty.
    by rewrite Hempty, lookup_empty in Hh. }
  assert (q ≠ h) as Hqh.
  { eapply successor_position_other; [done| |done]. by apply elem_of_dom. }
  pose proof (Hapart q succ Hq Hqh) as Hdata.
  destruct (remove_server_cases node s)
    as [(e & Hc & _)|(succ' & h' & Hlook' & Hoth & Hfrom & Hto & Hrun)];
    fold h in Hc || fold h in Hlook', Hrun; [congruence|].
  assert (succ' = succ) as -> by congruence.
  specialize (Hto Hdata).
  destruct (list_remove_is_Some (sorted_server_keys s) h) as [l Hl].
  { apply ring_inv_elem_of; eauto. }
  rewrite Hh, Hl in Hrun. eexists. split; [exact Hrun|].
  apply set_eq. intros k. rewrite !elem_of_stored_keys. simpl. split.
  - intros (p & n & Hpn & Hk).
    apply lookup_delete_Some in Hpn as [Hph Hpn].
    destruct (decide (data n = data succ)) as [Heq|Hne].
    + rewrite Heq, Hto, lookup_union in Hk.
      destruct ((heap s !!! data node) !! k) eqn:Hnode; [by eauto 6|].
      rewrite (left_id_L None _) in Hk. eauto.
    + rewrite Hoth in Hk by eauto. eauto.
  - intros (p & n & Hpn & Hk).
    destruct (decide (data n = data node)) as [Heq|Hne].
    + exists q, succ. rewrite lookup_delete_ne by done. split; [done|].
      rewrite Hto, lookup_union. rewrite Heq in Hk.
      destruct Hk as [v ->]. by destruct ((heap s !!! data succ) !! k).
    + assert (p ≠ h) as Hph by (intros ->; congruence).
      exists p, n. rewrite lookup_delete_ne by done. split; [done|].
      destruct (decide (data n = data succ)) as [Heq|Hne'].
      * rewrite Heq, Hto, lookup_union. rewrite Heq in Hk.
        destruct Hk as [v ->]. destruct ((heap s !!! data node) !! k); eauto.
      * by rewrite Hoth.
Qed.

(** [add_server] on a non-empty ring of a node at a free position, whose
    dict no registered node shares: the call completes and the keys of
    the registered stores are those of before and those the new node
    brought with it. *)
Lemma add_server_keeps_keys node s :
  let h := hash_fn (name node) in
  ring_inv s → ring s ≠ ∅ → ring s !! h = None →
  (∀ q n, ring s !! q = Some n → data n ≠ data node) →
  ∃ s',
    Ring.add_server node s = (s', Return tt) ∧
    stored_keys s' = stored_keys s ∪ dom (heap s !!! data node).
Proof.
  intros h Hinv Hne Hfree Hapart.
  destruct (add_server_fresh_inv node s Hinv Hfree)
    as (q & succ & h' & Hrun & Hq & Hsucc & Hoth & Hfrom & Hto).
  fold h in Hrun, Hq, Hsucc, Hfrom, Hto.
  assert (q ≠ h) as Hqh.
  { apply map_choose in Hne as (q0 & n0 & Hq0).
    eapply (successor_position_other _ h q q0); [done| |congruence].
    apply elem_of_dom. rewrite lookup_insert_ne by congruence. eauto. }
  rewrite lookup_insert_ne in Hq by done.
  pose proof (Hapart q succ Hq) as Hdata.
  specialize (Hto (not_eq_sym Hdata)).
  eexists. split; [exact Hrun|].
  assert (∀ k, (h' !!! data succ) !! k =
               if decide (hash_fn k < h) then None
               else (heap s !!! data succ) !! k) as Hsucc_k.
  { intros k. rewrite Hfrom.
    pose proof (lookup_filter_key (λ k, ¬ hash_fn k < h)
                  (heap s !!! data succ) k) as E.
    cbv beta in E. rewrite E. clear E.
    destruct (decide (hash_fn k < h)).
    - by rewrite decide_False by tauto.
    - by rewrite decide_True. }
  assert (∀ k, (h' !!! data node) !! k =
               match (if decide (hash_fn k < h)
                      then (heap s !!! data succ) !! k else None) with
               | Some v => Some v
               | None => (heap s !!! data node) !! k
               end) as Hnode_k.
  { intros k. rewrite Hto, lookup_union.
    pose proof (lookup_filter_key (λ k, hash_fn k < h)
                  (heap s !!! data succ) k) as E.
    cbv beta in E. rewrite E. clear E.
    destruct (decide (hash_fn k < h)).
    - destruct ((heap s !!! data succ) !! k);
        [by destruct ((heap s !!! data node) !! k)|by rewrite (left_id_L None _)].
    - by rewrite (left_id_L None _). }
  apply set_eq. intros k.
  rewrite elem_of_union, elem_of_dom, !elem_of_stored_keys. simpl. split.
  - intros (p & n & Hpn & Hk).
    apply lookup_insert_Some in Hpn as [[<- <-]|[Hph Hpn]].
    + rewrite Hnode_k in Hk. destruct (decide (hash_fn k < h)); [|by right].
      destruct ((heap s !!! data succ) !! k) eqn:Hs; [|by right].
      left. exists q, succ. rewrite Hs. eauto.
    + left. exists p, n. split; [done|].
      destruct (decide (data n = data succ)) as [Heq|Hne'].
      * rewrite Heq, Hsucc_k in Hk. rewrite Heq.
        by destruct (decide (hash_fn k < h)); [destruct Hk|].
      * rewrite Hoth in Hk by eauto. done.
  - intros [(p & n & Hpn & Hk)|Hk].
    + assert (p ≠ h) as Hph by (intros ->; congruence).
      destruct (decide (data n = data succ ∧ hash_fn k < h)) as [[Heq Hlt]|Hno].
      * exists h, node. rewrite lookup_insert_eq. split; [done|].
        rewrite Hnode_k, decide_True by done. rewrite Heq in Hk.
        by destruct Hk as [v ->].
      * exists p, n. rewrite lookup_insert_ne by done. split; [done|].
        destruct (decide (data n = data succ)) as [Heq|Hne'].
        -- rewrite Heq, Hsucc_k, decide_False by tauto. by rewrite <- Heq.
        -- rewrite Hoth by eauto. done.
    + exists h, node. rewrite lookup_insert_eq. split; [done|].
      rewrite Hnode_k. destruct (decide (hash_fn k < h)); [|done].
      by destruct ((heap s !!! data succ) !! k).
Qed.

Lemma lookup_filter_below h (m : gmap string Z) k :
  filter (λ kv, hash_fn kv.1 < h) m !! k =
    if decide (hash_fn k < h) then m !! k else None.
Proof.
  pose proof (lookup_filter_key (λ k, hash_fn k < h) m k) as E.
  cbv beta in E. exact E.
Qed.

Lemma lookup_filter_not_below h (m : gmap string Z) k :
  filter (λ kv, ¬ hash_fn kv.1 < h) m !! k =
    if decide (hash_fn k < h) then None else m !! k.
Proof.
  pose proof (lookup_filter_key (λ k, ¬ hash_fn k < h) m k) as E.
  cbv beta in E. rewrite E.
  destruct (decide (hash_fn k < h)).
  - by rewrite decide_False by tauto.
  - by rewrite decide_True.
Qed.

Lemma lookup_successor_registered r a h succ :
  lookup_successor r a h = Return succ → ∃ q, r !! q = Some succ.
Proof.
  unfold lookup_successor. destruct (decide _); [done|].
  destruct (a !! _) as [q|]; [|done].
  destruct (r !! q) eqn:Hq; [|done]. intros [= <-]. eauto.
Qed.

(** A completed [remove_server] of a registered node keeps the stores of
    the registered nodes apart. *)
Lemma remove_server_keeps_apart node s s' :
  ring s !! hash_fn (name node) = Some node →
  stores_apart s →
  Ring.remove_server node s = (s', Return tt) →
  stores_apart s'.
Proof.
  intros Hh Hapart Hrun.
  destruct (remove_server_cases node s)
    as [(e & _ & Hc)|(succ & h' & Hlook & Hoth & Hfrom & Hto & Hc)];
    rewrite Hc in Hrun; [done|].
  rewrite Hh in Hrun. destruct (list_remove _ _) as [l|]; [|done].
  injection Hrun as <-.
  apply lookup_successor_registered in Hlook as [q Hq].
  set (h := hash_fn (name node)) in *.
  assert (∀ p n k, ring s !! p = Some n → p ≠ h →
            is_Some ((h' !!! data n) !! k) →
            is_Some ((heap s !!! data n) !! k) ∨
            (p = q ∧ q ≠ h ∧ is_Some ((heap s !!! data node) !! k))) as Hsub.
  { intros p n k Hpn Hph Hk.
    destruct (Hapart p h n node Hpn Hh Hph) as [Hdn _].
    destruct (decide (p = q)) as [->|Hpq].
    - assert (n = succ) as -> by congruence.
      rewrite Hto, lookup_union in Hk by done.
      destruct ((heap s !!! data node) !! k) eqn:Hnode; [by eauto 6|].
      rewrite (left_id_L None _) in Hk. by left.
    - destruct (decide (q = h)) as [->|Hqh].
      + assert (succ = node) as -> by congruence.
        rewrite Hoth in Hk by done. by left.
      + destruct (Hapart p q n succ Hpn Hq Hpq) as [Hds _].
        rewrite Hoth in Hk by done. by left. }
  intros p1 p2 n1 n2 Hp1 Hp2 Hne. simpl in *.
  apply lookup_delete_Some in Hp1 as [Hp1h Hp1].
  apply lookup_delete_Some in Hp2 as [Hp2h Hp2].
  destruct (Hapart p1 p2 n1 n2 Hp1 Hp2 Hne) as [Hdata Hdisj].
  split; [done|]. apply elem_of_disjoint. intros k Hk1 Hk2.
  apply elem_of_dom in Hk1, Hk2.
  apply (Hsub p1) in Hk1; [|done..]. apply (Hsub p2) in Hk2; [|done..].
  destruct Hk1 as [Hk1|(-> & Hqh & Hk1)], Hk2 as [Hk2|(-> & _ & Hk2)].
  - apply (elem_of_disjoint (dom (heap s !!! data n1))
             (dom (heap s !!! data n2))) with k; [done|by apply elem_of_dom..].
  - destruct (Hapart p1 h n1 node Hp1 Hh (not_eq_sym Hp1h)) as [_ Hd].
    apply (proj1 (elem_of_disjoint _ _) Hd k); by apply elem_of_dom.
  - destruct (Hapart h p2 node n2 Hh Hp2 Hp2h) as [_ Hd].
    apply (proj1 (elem_of_disjoint _ _) Hd k); by apply elem_of_dom.
  - done.
Qed.

(** A completed [add_server] of a node whose dict and keys no registered
    node shares keeps the stores of the registered nodes apart. *)
Lemma add_server_keeps_apart node s s' :
  stores_apart s →
  (∀ q n, ring s !! q = Some n →
     data n ≠ data node ∧
     dom (heap s !!! data n) ## dom (heap s !!! data node)) →
  Ring.add_server node s = (s', Return tt) →
  stores_apart s'.
Proof.
  intros Hapart Hnew Hrun.
  destruct (add_server_cases node s)
    as [[_ Hc]|[Hfree [(e & _ & Hc)|(succ & h' & Hlook & Hc & Hoth & Hfrom & Hto)]]];
    rewrite Hc in Hrun; [done..|].
  injection Hrun as <-. simpl in Hlook.
  apply lookup_successor_registered in Hlook as [q Hq].
  set (h := hash_fn (name node)) in *.
  (* what a registered node of before may hold afterwards *)
  assert (∀ p n k, ring s !! p = Some n →
            is_Some ((h' !!! data n) !! k) →
            is_Some ((heap s !!! data n) !! k) ∧
            (p = q → ¬ hash_fn k < h)) as Hold.
  { intros p n k Hpn Hk. destruct (Hnew p n Hpn) as [Hdn _].
    destruct (decide (data n = data succ)) as [Heq|Hds].
    - rewrite Heq, Hfrom, lookup_filter_not_below in Hk. rewrite Heq.
      destruct (decide (hash_fn k < h)); [by destruct Hk|]. done.
    - rewrite Hoth in Hk by done. split; [done|]. intros ->.
      destruct (decide (q = h)) as [Hqh|Hqh].
      + rewrite Hqh in Hpn. congruence.
      + rewrite lookup_insert_ne in Hq by done. congruence. }
  (* what the new node may hold afterwards *)
  assert (∀ k, is_Some ((h' !!! data node) !! k) →
            is_Some ((heap s !!! data node) !! k) ∨
            (q ≠ h ∧ hash_fn k < h ∧ is_Some ((heap s !!! data succ) !! k)))
    as Hnode.
  { intros k Hk. destruct (decide (q = h)) as [Hqh|Hqh].
    - rewrite Hqh, lookup_insert_eq in Hq. injection Hq as <-.
      rewrite Hfrom, lookup_filter_not_below in Hk.
      destruct (decide (hash_fn k < h)); [by destruct Hk|by left].
    - rewrite lookup_insert_ne in Hq by done.
      destruct (Hnew q succ Hq) as [Hds _].
      rewrite Hto, lookup_union, lookup_filter_below in Hk by done.
      destruct (decide (hash_fn k < h)); [|rewrite (left_id_L None _) in Hk; by left].
      destruct ((heap s !!! data succ) !! k) eqn:Hs; [by right; eauto|].
      rewrite (left_id_L None _) in Hk. by left. }
  assert (∀ p n, ring s !! p = Some n →
            dom (h' !!! data node) ## dom (h' !!! data n)) as Hnew'.
  { intros p n Hpn. apply elem_of_disjoint. intros k Hk1 Hk2.
    apply elem_of_dom in Hk1, Hk2.
    apply Hnode in Hk1. apply (Hold p) in Hk2 as [Hk2 Hge]; [|done].
    destruct (Hnew p n Hpn) as [_ Hd].
    destruct Hk1 as [Hk1|(Hqh & Hlt & Hk1)].
    - apply (proj1 (elem_of_disjoint _ _) Hd k); by apply elem_of_dom.
    - rewrite lookup_insert_ne in Hq by done.
      destruct (decide (p = q)) as [->|Hpq]; [by apply Hge|].
      destruct (Hapart p q n succ Hpn Hq Hpq) as [_ Hd'].
      apply (proj1 (elem_of_disjoint _ _) Hd' k); by apply elem_of_dom. }
  intros p1 p2 n1 n2 Hp1 Hp2 Hne. simpl in *.
  apply lookup_insert_Some in Hp1 as [[<- <-]|[Hp1h Hp1]];
    apply lookup_insert_Some in Hp2 as [[<- <-]|[Hp2h Hp2]]; try done.
  - destruct (Hnew p2 n2 Hp2) as [Hdn _]. split; [done|]. by eapply Hnew'.
  - destruct (Hnew p1 n1 Hp1) as [Hdn _]. split; [done|].
    symmetry. by eapply Hnew'.
  - destruct (Hapart p1 p2 n1 n2 Hp1 Hp2 Hne) as [Hdata Hd].
    split; [done|]. apply elem_of_disjoint. intros k Hk1 Hk2.
    apply elem_of_dom in Hk1, Hk2.
    apply (Hold p1) in Hk1 as [Hk1 _]; [|done].
    apply (Hold p2) in Hk2 as [Hk2 _]; [|done].
    apply (proj1 (elem_of_disjoint _ _) Hd k); by apply elem_of_dom.
Qed.

End keys_kept.

(** ** The position index across the operations *)

Section index_invariant.

Implicit Types (s : State) (node : ServerNode) (key : string).

Lemma add_server_ring_inv node s s' :
  ring_inv s → Ring.add_server node s = (s', Return tt) → ring_inv s'.
Proof.
  intros Hinv Hrun.
  destruct (add_server_cases node s)
    as [[_ Hc]|[Hh [(e & _ & Hc)|(succ & h' & _ & Hc & _)]]];
    rewrite Hc in Hrun; try done.
  injection Hrun as <-.
  by apply (ring_inv_heap (mkState _ _ (heap s))), ring_inv_register.
Qed.

Lemma remove_server_ring_inv node s s' :
  ring_inv s → Ring.remove_server node s = (s', Return tt) → ring_inv s'.
Proof.
  intros Hinv Hrun. pose proof Hinv as [Hs Hdom].
  destruct (remove_server_cases node s)
    as [(e & _ & Hc)|(succ & h' & _ & _ & _ & _ & Hc)];
    rewrite Hc in Hrun; [done|].
  destruct (ring s !! hash_fn (name node)); [|done].
  destruct (list_remove _ _) as [l|] eqn:Hrem; [|done].
  injection Hrun as <-.
  destruct (list_remove_sorted _ _ _ Hs Hrem) as [Hs' Hel].
  split; simpl; [done|]. apply set_eq. intros p.
  rewrite elem_of_list_to_set, Hel, dom_delete_L, <- Hdom.
  rewrite elem_of_difference, elem_of_singleton, elem_of_list_to_set. done.
Qed.

Lemma add_data_ring_inv key value s s' :
  ring_inv s → Ring.add_data key value s = (s', Return tt) → ring_inv s'.
Proof.
  intros Hinv. rewrite add_data_eq.
  destruct (lookup_successor _ _ _) as [t|e]; [|done].
  rewrite insert_data_eq. intros [= <-]. by apply ring_inv_heap.
Qed.

Lemma remove_data_ring_inv key s s' :
  ring_inv s → Ring.remove_data key s = (s', Return tt) → ring_inv s'.
Proof.
  intros Hinv. rewrite remove_data_eq.
  destruct (lookup_successor _ _ _) as [t|e]; [|done].
  destruct ((heap s !!! data t) !! key) as [v|] eqn:Hv.
  - rewrite (remove_data_Some _ _ v) by done.
    intros [= <-]. by apply ring_inv_heap.
  - by rewrite remove_data_None.
Qed.

End index_invariant.

Lemma do_call_ring_inv c s : ring_inv s → ring_inv (do_call c s).1.
Proof.
  intros Hinv. destruct c as [node|node|key value|key]; simpl.
  - destruct (add_server_cases node s)
      as [[_ Hc]|[Hh [(e & _ & Hc)|(succ & h' & _ & Hc & _)]]];
      rewrite Hc; simpl; [done| |].
    + by apply ring_inv_register.
    + by apply (ring_inv_heap (mkState _ _ (heap s))), ring_inv_register.
  - destruct (remove_server_cases node s)
      as [(e & _ & Hc)|(succ & h' & _ & _ & _ & _ & Hc)]; rewrite Hc; [done|].
    destruct (ring s !! hash_fn (name node)) as [n0|] eqn:Hh;
      [|by apply ring_inv_heap].
    destruct (list_remove_is_Some (sorted_server_keys s) (hash_fn (name node)))
      as [l Hl]; [apply ring_inv_elem_of; eauto|].
    rewrite Hl in Hc. rewrite Hl.
    by apply (remove_server_ring_inv node s _ Hinv Hc).
  - destruct (Ring.add_data key value s) as [s' [[]|e]] eqn:Hrun.
    + by eapply add_data_ring_inv.
    + rewrite add_data_eq in Hrun.
      destruct (lookup_successor _ _ _); [done|]. by injection Hrun as <- _.
  - destruct (Ring.remove_data key s) as [s' [[]|e]] eqn:Hrun.
    + by eapply remove_data_ring_inv.
    + rewrite remove_data_eq in Hrun.
      destruct (lookup_successor _ _ _) as [t|]; [|by injection Hrun as <- _].
      destruct ((heap s !!! data t) !! key) as [v|] eqn:Hv.
      * by rewrite (remove_data_Some _ _ v) in Hrun.
      * rewrite remove_data_None in Hrun by done. by injection Hrun as <- _.
Qed.

Lemma reachable_ring_inv s : reachable s → ring_inv s.
Proof.
  induction 1 as [h|c s _ IH].
  - split; [constructor|]. simpl. by rewrite dom_empty_L.
  - by apply do_call_ring_inv.
Qed.

(** ** The successor of a node between two registered positions *)

Section keys_moved.

Implicit Types (s : State) (node succ : ServerNode).

Lemma successor_after_register (r : gmap Z ServerNode) node h q q' :
  successor_position (dom r) h q → h < q →
  successor_position (dom (<[h := node]> r)) h q' →
  q' = q.
Proof.
  intros (Hq & Hcase) Hlt (Hq' & Hcase').
  assert (q ∈ dom (<[h := node]> r)) as Hq1.
  { rewrite dom_insert_L. apply elem_of_union. by right. }
  destruct Hcase as [[_ Hmin]|[Hall _]]; [|specialize (Hall q Hq); simpl in Hall; lia].
  destruct Hcase' as [[Hlt' Hmin']|[Hall' _]].
  - assert (q' ∈ dom r) as Hq'r.
    { rewrite dom_insert_L in Hq'. apply elem_of_union in Hq' as [Hq'|]; [|done].
      apply elem_of_singleton in Hq'. lia. }
    specialize (Hmin q' Hq'r Hlt'). specialize (Hmin' q Hq1 Hlt). lia.
  - specialize (Hall' q Hq1). simpl in Hall'. lia.
Qed.

Lemma successor_position_unique (positions : gset Z) x q1 q2 :
  successor_position positions x q1 → successor_position positions x q2 →
  q1 = q2.
Proof.
  intros (Hq1 & Hc1) (Hq2 & Hc2).
  destruct Hc1 as [[Hlt1 Hmin1]|[Hall1 Hmin1]],
           Hc2 as [[Hlt2 Hmin2]|[Hall2 Hmin2]].
  - specialize (Hmin1 q2 Hq2 Hlt2). specialize (Hmin2 q1 Hq1 Hlt1). lia.
  - specialize (Hall2 q1 Hq1). simpl in Hall2. lia.
  - specialize (Hall1 q2 Hq2). simpl in Hall1. lia.
  - specialize (Hmin1 q2 Hq2). specialize (Hmin2 q1 Hq1). simpl in *. lia.
Qed.

(** Placement after [add_server], for a position [x] on the arc the
    successor owned: the lookup of [add_data] and [remove_data] leads to
    the new node when [x < h] and to the successor when [h ≤ x].  The
    strict filter of [add_server] moves the keys the lookup will look for
    on the new node, and no others. *)
Lemma add_server_placement node s p q succ s' x :
  let h := hash_fn (name node) in
  ring_inv s →
  ring s !! h = None →
  predecessor_position (dom (ring s)) h p →
  successor_position (dom (ring s)) h q → h < q →
  ring s !! q = Some succ →
  Ring.add_server node s = (s', Return tt) →
  p ≤ x < q →
  lookup_successor (ring s') (sorted_server_keys s') x =
    Return (if decide (x < h) then node else succ).
Proof.
  intros h Hinv Hfree (Hp & Hph & Hpmax) (Hq & Hqcase) Hhq Hsucc Hrun Hx.
  destruct Hqcase as [[_ Hqmin]|[Hall _]];
    [|specialize (Hall q Hq); simpl in Hall; lia].
  destruct (add_server_fresh_inv node s Hinv Hfree)
    as (q0 & succ0 & h' & Hrun' & _). fold h in Hrun'.
  rewrite Hrun' in Hrun. injection Hrun as <-.
  set (r1 := <[h := node]> (ring s)).
  assert (ring_inv (mkState r1 (insort (sorted_server_keys s) h) h')) as Hinv1.
  { by apply (ring_inv_heap (mkState _ _ (heap s))), ring_inv_register. }
  destruct (lookup_successor_inv _ x Hinv1) as (q' & succ' & Hlook & Hq' & Hs').
  { simpl. intros Hnil.
    pose proof (length_insort (sorted_server_keys s) h) as Hl.
    by rewrite Hnil in Hl. }
  simpl in Hlook, Hq', Hs'. simpl. rewrite Hlook. f_equal.
  assert (∀ y, y ∈ dom r1 → y = h ∨ (y ∈ dom (ring s) ∧ (y ≤ p ∨ q ≤ y)))
    as Hdom.
  { intros y Hy. unfold r1 in Hy. rewrite dom_insert_L in Hy.
    apply elem_of_union in Hy as [Hy%elem_of_singleton|Hy]; [by left|].
    right. split; [done|]. destruct (decide (y < h)) as [Hlt|Hge].
    - left. by apply Hpmax.
    - right. apply Hqmin; [done|].
      assert (y ≠ h); [|lia]. intros ->.
      apply elem_of_dom in Hy. rewrite Hfree in Hy. by destruct Hy. }
  destruct (decide (x < h)) as [Hlt|Hge].
  - assert (q' = h) as ->.
    { apply (successor_position_unique (dom r1) x); [done|].
      split; [apply elem_of_dom; unfold r1; rewrite lookup_insert_eq; eauto|].
      left. split; [done|]. intros y Hy Hxy.
      destruct (Hdom y Hy) as [->|[_ [?|?]]]; lia. }
    unfold r1 in Hq'. rewrite lookup_insert_eq in Hq'. congruence.
  - assert (q' = q) as ->.
    { apply (successor_position_unique (dom r1) x); [done|].
      split; [unfold r1; rewrite dom_insert_L; apply elem_of_union; by right|].
      left. split; [lia|]. intros y Hy Hxy.
      destruct (Hdom y Hy) as [->|[_ [?|?]]]; lia. }
    unfold r1 in Hq'. rewrite lookup_insert_ne in Hq' by lia. congruence.
Qed.

End keys_moved.

Lemma bisect_singleton h : bisect [h] h = 1%nat.
Proof.
  unfold bisect. simpl length. rewrite bisect_loop_S.
  change ((0 <? 1)%nat) with true. cbv iota.
  change ((0 + 1) / 2)%nat with 0%nat. simpl nth.
  by rewrite Z.ltb_irrefl.
Qed.

(** ** The example states *)

Example hash_fn_servers :
  hash_fn "can1" = 288 ∧ hash_fn "can2" = 333 ∧ hash_fn "can3" = 234 ∧
  hash_fn "can5" = 201 ∧ hash_fn "can6" = 100 ∧ hash_fn "can58" = 234.
Proof. vm_compute. by split_and!. Qed.

Example hash_fn_keys :
  hash_fn "key1" = 117 ∧ hash_fn "key476" = 201 ∧ hash_fn "key268" = 100 ∧
  hash_fn "key6" = 78.
Proof. vm_compute. by split_and!. Qed.

Example ring_one_state :
  ring_one = mkState {[288 := can1]} [288] {[1%positive := {["key1" := 5]}]}.
Proof. vm_compute. reflexivity. Qed.

Example ring_two_state :
  ring_two =
    mkState {[100 := can6; 234 := can3]} [100; 234]
      {[3%positive := {["key476" := 7; "key268" := 8; "key1" := 5]}]}.
Proof. vm_compute. reflexivity. Qed.

Example ring_stranger_state :
  ring_stranger =
    mkState {[288 := can1]} [288] {[2%positive := {["key2" := 6]}]}.
Proof. vm_compute. reflexivity. Qed.

Example example_states_reachable :
  reachable ring_one ∧ reachable ring_two ∧ reachable ring_stranger.
Proof.
  assert (ring_one =
            (do_call (AddData "key1" 5)
               (do_call (AddServer can1) init).1).1) as ->
    by (vm_compute; reflexivity).
  assert (ring_two =
            (do_call (AddData "key1" 5)
               (do_call (AddData "key268" 8)
                  (do_call (AddData "key476" 7)
                     (do_call (AddServer can3)
                        (do_call (AddServer can6) init).1).1).1).1).1) as ->
    by (vm_compute; reflexivity).
  assert (ring_stranger =
            (do_call (AddServer can1)
               (mkState ∅ [] {[2%positive := {["key2" := 6]}]})).1) as ->
    by (vm_compute; reflexivity).
  split_and!; repeat apply reachable_call; apply reachable_init.
Qed.

(** The filter [hash_fn(key) < hash_fn(node.name)] of [add_server] does
    not follow the circular order.  can6 (at 100) stores ["key6"], which
    hashes to 78; adding can1 at 288, above every registered position,
    takes can6 as successor by wrap-around and moves ["key6"] to can1,
    while the placement lookup still leads to can6: [remove_data] of the
    key then raises KeyError. *)
Example add_server_wrap_around :
  let s := after (Ring.add_data "key6" 8) ring_two in
  let s' := after (Ring.add_server can1) s in
  (heap s !!! data can6) !! "key6" = Some 8 ∧
  Ring.add_server can1 s = (s', Return tt) ∧
  (heap s' !!! data can6) !! "key6" = None ∧
  (heap s' !!! data can1) !! "key6" = Some 8 ∧
  Ring.remove_data "key6" s' = (s', Raise KeyError).
Proof. vm_compute. by split_and!. Qed.

(** The strict filter agrees with the placement lookup: once can5 (at
    201) is added to [ring_two], ["key476"] (which hashes to 201) is still
    where [remove_data] looks for it, on can3, and so is ["key268"], on
    can5. *)
Example boundary_keys_found :
  let s' := after (Ring.add_server can5) ring_two in
  (Ring.remove_data "key476" s').2 = Return tt ∧
  (Ring.remove_data "key268" s').2 = Return tt.
Proof. vm_compute. by split_and!. Qed.

(** A list that names a key twice is not drawn from a dict: the second
    [del] of the key raises KeyError and the keys after it are kept. *)
Example transfer_data_repeated_key :
  Ring.transfer_data can3 can3 ["key1"; "key1"; "key268"] ring_two =
    (mkState {[100 := can6; 234 := can3]} [100; 234]
       {[3%positive := {["key476" := 7; "key268" := 8]}]},
     Raise KeyError).
Proof. vm_compute. reflexivity. Qed.

(** * The claims *)

(** ** Keys across a membership change *)

(** C1, the failing call.  can1 is the only server and stores ["key1"].
    [remove_server can1] completes, and afterwards the key is in no store
    at all: the successor of the only node is the node itself, and
    [transfer_data] from a node to itself deletes what it was given. *)
Theorem remove_sole_server_loses_keys :
  stored_keys ring_one = {["key1"]} ∧
  Ring.remove_server can1 ring_one =
    (mkState ∅ [] {[1%positive := ∅]}, Return tt) ∧
  stored_keys (mkState ∅ [] {[1%positive := ∅]}) = ∅.
Proof. split_and!; vm_compute; reflexivity. Qed.

(** ** Keys moved by [add_server] *)

(** C2, counterexample.  can6 is registered at 100 and can3 at 234; can3
    stores ["key476"], which hashes to 201, and ["key268"], which hashes
    to 100.  Adding can5, whose position is 201, leaves ["key476"] on can3
    although its position is that of can5 and above the predecessor's, and
    moves ["key268"] although its position is not above the predecessor's. *)
Lemma add_server_boundary_counterexample :
  Ring.add_server can5 ring_two =
    (mkState {[100 := can6; 201 := can5; 234 := can3]} [100; 201; 234]
       {[3%positive := {["key476" := 7]};
         5%positive := {["key268" := 8; "key1" := 5]}]},
     Return tt) ∧
  predecessor_position (dom (ring ring_two)) (hash_fn (name can5))
    (hash_fn (name can6)) ∧
  (hash_fn (name can6) < hash_fn "key476" ≤ hash_fn (name can5) ∧
   (heap ring_two !!! data can3) !! "key476" = Some 7 ∧
   (heap (after (Ring.add_server can5) ring_two) !!! data can3) !! "key476"
     = Some 7 ∧
   (heap (after (Ring.add_server can5) ring_two) !!! data can5) !! "key476"
     = None) ∧
  (¬ hash_fn (name can6) < hash_fn "key268" ∧
   (heap ring_two !!! data can3) !! "key268" = Some 8 ∧
   (heap (after (Ring.add_server can5) ring_two) !!! data can3) !! "key268"
     = None ∧
   (heap (after (Ring.add_server can5) ring_two) !!! data can5) !! "key268"
     = Some 8).
Proof.
  split; [vm_compute; reflexivity|].
  split; [by apply (bool_decide_unpack _); vm_compute|].
  split_and!; try (vm_compute; reflexivity); vm_compute; by intros [=].
Qed.

(** C2, amended.  Let the position [h] of the new node be free and lie
    strictly between two registered positions, [p] the nearest below and
    [q] the nearest above, and let the new node have a dict of its own.
    Then [add_server] completes; it takes from the store of the successor
    (the node at [q]) exactly the entries whose key hashes strictly below
    [h] and puts them in the store of the new node; a key that hashes to
    [h] stays on the successor.  No other store changes.  When every key
    of the successor hashes at or above [p], the keys that leave it are
    those with [p ≤ hash_fn key < h]. *)
Theorem add_server_moves_keys_below node s p q succ :
  let h := hash_fn (name node) in
  ring_inv s →
  ring s !! h = None →
  predecessor_position (dom (ring s)) h p →
  successor_position (dom (ring s)) h q → h < q →
  ring s !! q = Some succ →
  data node ≠ data succ →
  ∃ s',
    Ring.add_server node s = (s', Return tt) ∧
    heap s' !!! data succ =
      filter (λ kv, ¬ hash_fn kv.1 < h) (heap s !!! data succ) ∧
    heap s' !!! data node =
      filter (λ kv, hash_fn kv.1 < h) (heap s !!! data succ)
        ∪ (heap s !!! data node) ∧
    (∀ l, l ≠ data succ → l ≠ data node → heap s' !!! l = heap s !!! l) ∧
    ((∀ k, is_Some ((heap s !!! data succ) !! k) → p ≤ hash_fn k) →
     ∀ k, is_Some ((heap s !!! data succ) !! k) →
          (heap s' !!! data succ) !! k = None ↔ p ≤ hash_fn k < h).
Proof.
  intros h Hinv Hfree Hpred Hsucc Hlt Hq Hne.
  destruct (add_server_fresh_inv node s Hinv Hfree)
    as (q' & succ' & h' & Hrun & Hq' & Hsucc' & Hoth & Hfrom & Hto).
  fold h in Hrun, Hq', Hsucc', Hfrom, Hto.
  assert (q' = q) as -> by (by eapply successor_after_register).
  rewrite lookup_insert_ne in Hq' by lia.
  assert (succ' = succ) as -> by congruence.
  eexists. split; [exact Hrun|]. simpl. split_and!; [done|by apply Hto|done|].
  intros Harc k [v Hv]. rewrite Hfrom.
  pose proof (lookup_filter_key (λ k, ¬ hash_fn k < h)
                (heap s !!! data succ) k) as E.
  cbv beta in E. rewrite E, Hv. clear E.
  specialize (Harc k ltac:(eauto)).
  destruct (decide (¬ hash_fn k < h)) as [Hge|Hlt'].
  - split; [done|]. intros [_ ?]. done.
  - split; [|done]. intros _. split; [done|].
    destruct (decide (hash_fn k < h)); tauto.
Qed.

Lemma add_server_moves_keys_below_witness :
  ring_inv ring_two ∧
  ring ring_two !! hash_fn (name can5) = None ∧
  predecessor_position (dom (ring ring_two)) (hash_fn (name can5)) 100 ∧
  successor_position (dom (ring ring_two)) (hash_fn (name can5)) 234 ∧
  hash_fn (name can5) < 234 ∧
  ring ring_two !! 234 = Some can3 ∧
  data can5 ≠ data can3 ∧
  ∃ s',
    Ring.add_server can5 ring_two = (s', Return tt) ∧
    heap s' !!! data can3 =
      filter (λ kv, ¬ hash_fn kv.1 < hash_fn (name can5))
        (heap ring_two !!! data can3) ∧
    heap s' !!! data can5 =
      filter (λ kv, hash_fn kv.1 < hash_fn (name can5))
        (heap ring_two !!! data can3)
        ∪ (heap ring_two !!! data can5) ∧
    (∀ l, l ≠ data can3 → l ≠ data can5 →
          heap s' !!! l = heap ring_two !!! l) ∧
    ((∀ k, is_Some ((heap ring_two !!! data can3) !! k) → 100 ≤ hash_fn k) →
     ∀ k, is_Some ((heap ring_two !!! data can3) !! k) →
          (heap s' !!! data can3) !! k = None
          ↔ 100 ≤ hash_fn k < hash_fn (name can5)).
Proof.
  assert (ring_inv ring_two) as H1
    by (vm_compute; split; [repeat constructor|reflexivity]).
  assert (ring ring_two !! hash_fn (name can5) = None) as H2
    by (vm_compute; reflexivity).
  assert (predecessor_position (dom (ring ring_two)) (hash_fn (name can5)) 100)
    as H3 by (by apply (bool_decide_unpack _); vm_compute).
  assert (successor_position (dom (ring ring_two)) (hash_fn (name can5)) 234)
    as H4 by (by apply (bool_decide_unpack _); vm_compute).
  assert (hash_fn (name can5) < 234) as H5 by (vm_compute; reflexivity).
  assert (ring ring_two !! 234 = Some can3) as H6 by (vm_compute; reflexivity).
  assert (data can5 ≠ data can3) as H7 by (vm_compute; by intros [=]).
  split_and!; try assumption.
  exact (add_server_moves_keys_below can5 ring_two 100 234 can3
           H1 H2 H3 H4 H5 H6 H7).
Defined.

(** ** Removal of the only server *)

(** C3, counterexample.  can1 is the only registered server and stores
    ["key1"]: [remove_server] raises nothing; it returns, the ring is
    empty afterwards and the store of can1 has lost its key. *)
Lemma remove_sole_server_counterexample :
  ring ring_one = {[hash_fn (name can1) := can1]} ∧
  Ring.remove_server can1 ring_one =
    (mkState ∅ [] {[1%positive := ∅]}, Return tt) ∧
  (∀ e, Ring.remove_server can1 ring_one ≠ (ring_one, Raise e)).
Proof.
  assert (Ring.remove_server can1 ring_one =
            (mkState ∅ [] {[1%positive := ∅]}, Return tt)) as H
    by (vm_compute; reflexivity).
  split_and!; [vm_compute; reflexivity|exact H|].
  intros e. rewrite H. by intros [=].
Qed.

(** C3, amended.  On a ring whose only registered node is [node],
    [remove_server node] returns normally (the source has no check for
    the last node) and unregisters the node: [ring] and
    [sorted_server_keys] are empty afterwards. *)
Theorem remove_server_sole_node node s :
  ring s = {[hash_fn (name node) := node]} →
  sorted_server_keys s = [hash_fn (name node)] →
  ∃ s',
    Ring.remove_server node s = (s', Return tt) ∧
    ring s' = ∅ ∧ sorted_server_keys s' = [].
Proof.
  intros Hring Hsorted.
  destruct (remove_server_cases node s)
    as [(e & Hc & _)|(succ & h' & _ & _ & _ & _ & Hc)].
  - exfalso. revert Hc. unfold lookup_successor.
    rewrite Hsorted, Hring, bisect_singleton. simpl.
    by rewrite lookup_singleton_eq.
  - rewrite Hc, Hring, Hsorted, lookup_singleton_eq. simpl.
    rewrite decide_True by done. eexists. split; [done|]. simpl.
    split; [|done]. apply delete_singleton_eq.
Qed.

Lemma remove_server_sole_node_witness :
  ring ring_one = {[hash_fn (name can1) := can1]} ∧
  sorted_server_keys ring_one = [hash_fn (name can1)] ∧
  ∃ s',
    Ring.remove_server can1 ring_one = (s', Return tt) ∧
    ring s' = ∅ ∧ sorted_server_keys s' = [].
Proof.
  assert (ring ring_one = {[hash_fn (name can1) := can1]}) as H1
    by (vm_compute; reflexivity).
  assert (sorted_server_keys ring_one = [hash_fn (name can1)]) as H2
    by (vm_compute; reflexivity).
  split_and!; [exact H1|exact H2|].
  exact (remove_server_sole_node can1 ring_one H1 H2).
Defined.

(** ** Lookup *)

(** C4. On a ring with no registered node, every placement or lookup
    operation ([get_successor_node], [add_data], [remove_data]) fails and
    leaves the state as it was.  The failure the specification calls
    EmptyRingError is, in the source, the ZeroDivisionError of
    [% len(self.sorted_server_keys)]. *)
Theorem empty_ring_operations_fail s node key value :
  ring_inv s → ring s = ∅ →
  Ring.get_successor_node node s = (s, Raise ZeroDivisionError) ∧
  Ring.add_data key value s = (s, Raise ZeroDivisionError) ∧
  Ring.remove_data key s = (s, Raise ZeroDivisionError).
Proof.
  intros [_ Hdom] Hempty.
  assert (sorted_server_keys s = []) as Hnil.
  { rewrite Hempty, dom_empty_L in Hdom.
    destruct (sorted_server_keys s) as [|p a]; [done|].
    exfalso. apply (not_elem_of_empty (C:=gset Z) p).
    rewrite <- Hdom. apply elem_of_list_to_set. by left. }
  rewrite get_successor_node_eq, add_data_eq, remove_data_eq, Hnil.
  by rewrite !lookup_successor_nil.
Qed.

Lemma empty_ring_operations_fail_witness :
  ring_inv init ∧ ring init = ∅ ∧
  Ring.get_successor_node can1 init = (init, Raise ZeroDivisionError) ∧
  Ring.add_data "key1" 5 init = (init, Raise ZeroDivisionError) ∧
  Ring.remove_data "key1" init = (init, Raise ZeroDivisionError).
Proof.
  split; [apply ring_inv_init|]. split; [reflexivity|].
  apply (empty_ring_operations_fail init can1 "key1" 5);
    [apply ring_inv_init|reflexivity].
Defined.

(** C5. On a non-empty ring that satisfies the invariant,
    [get_successor_node] returns, without changing the state, the node
    registered at the smallest position strictly greater than the position
    of the given node, or the node at the smallest position when no
    registered position is greater. *)
Theorem get_successor_node_circular node s :
  ring_inv s → ring s ≠ ∅ →
  ∃ q succ,
    Ring.get_successor_node node s = (s, Return succ) ∧
    ring s !! q = Some succ ∧
    successor_position (dom (ring s)) (hash_fn (name node)) q.
Proof.
  intros Hinv Hne. rewrite get_successor_node_eq.
  destruct (lookup_successor_inv s (hash_fn (name node)) Hinv)
    as (q & succ & -> & Hq & Hsucc); [by apply ring_inv_nonempty|].
  eauto.
Qed.

Lemma get_successor_node_circular_witness :
  ring_inv ring_two ∧ ring ring_two ≠ ∅ ∧
  ∃ q succ,
    Ring.get_successor_node can5 ring_two = (ring_two, Return succ) ∧
    ring ring_two !! q = Some succ ∧
    successor_position (dom (ring ring_two)) (hash_fn (name can5)) q.
Proof.
  assert (ring_inv ring_two) as Hinv
    by (vm_compute; split; [repeat constructor|reflexivity]).
  assert (ring ring_two ≠ ∅) as Hne by (by vm_compute).
  split; [exact Hinv|]. split; [exact Hne|].
  exact (get_successor_node_circular can5 ring_two Hinv Hne).
Defined.

(** ** Errors of [add_server] and [remove_server] *)

(** C6. When the name of the node hashes to a position that is already
    registered, [add_server] raises (the explicit [raise KeyError] of the
    source, DuplicatePositionError in the specification) and the whole
    state, the existing registration included, is unchanged. *)
Theorem add_server_duplicate_position node s :
  is_Some (ring s !! hash_fn (name node)) →
  Ring.add_server node s = (s, Raise KeyError).
Proof. apply add_server_duplicate. Qed.

Lemma add_server_duplicate_position_witness :
  is_Some (ring ring_two !! hash_fn (name can58)) ∧
  Ring.add_server can58 ring_two = (ring_two, Raise KeyError).
Proof.
  assert (is_Some (ring ring_two !! hash_fn (name can58))) as H
    by (vm_compute; eauto).
  split; [exact H|]. exact (add_server_duplicate_position can58 ring_two H).
Defined.

(** C7, the failing call.  can1 is registered (at 288) with an empty
    store; can2 (position 333) was never added and holds ["key2"].
    [remove_server can2] raises KeyError at [del self.ring[hashed_key]],
    after [transfer_data] has moved the entry of can2 into the store of
    can1: [ring] and [sorted_server_keys] are unchanged, the two stores
    are not. *)
Theorem remove_unregistered_server_moves_data :
  ring_stranger =
    mkState {[288 := can1]} [288] {[2%positive := {["key2" := 6]}]} ∧
  ring ring_stranger !! hash_fn (name can2) = None ∧
  Ring.remove_server can2 ring_stranger =
    (mkState {[288 := can1]} [288]
       {[1%positive := {["key2" := 6]}; 2%positive := ∅]},
     Raise KeyError).
Proof. split_and!; vm_compute; reflexivity. Qed.

(** ** The position index *)

(** C8. Each of the four ring operations, when it completes on a ring
    whose [sorted_server_keys] is the strictly ascending list of the keys
    of [ring], leaves a ring of which the same holds. *)
Theorem ring_operations_keep_index_sorted s s' :
  ring_inv s →
  (∀ node, Ring.add_server node s = (s', Return tt) → ring_inv s') ∧
  (∀ node, Ring.remove_server node s = (s', Return tt) → ring_inv s') ∧
  (∀ key value, Ring.add_data key value s = (s', Return tt) → ring_inv s') ∧
  (∀ key, Ring.remove_data key s = (s', Return tt) → ring_inv s').
Proof.
  intros Hinv. split_and!.
  - intros node. by apply add_server_ring_inv.
  - intros node. by apply remove_server_ring_inv.
  - intros key value. by apply add_data_ring_inv.
  - intros key. by apply remove_data_ring_inv.
Qed.

Lemma ring_operations_keep_index_sorted_witness :
  ring_inv ring_two ∧
  Ring.add_server can5 ring_two =
    (after (Ring.add_server can5) ring_two, Return tt) ∧
  ring_inv (after (Ring.add_server can5) ring_two).
Proof.
  assert (ring_inv ring_two) as Hinv
    by (vm_compute; split; [repeat constructor|reflexivity]).
  assert (Ring.add_server can5 ring_two =
            (after (Ring.add_server can5) ring_two, Return tt)) as Hrun
    by (vm_compute; reflexivity).
  split; [exact Hinv|]. split; [exact Hrun|].
  exact (proj1 (ring_operations_keep_index_sorted ring_two _ Hinv) can5 Hrun).
Defined.

(** ** Frame of a membership change *)



(** ** Transfer of a node to itself *)

(** C10. [transfer_data] from a node to itself, with keys drawn from the
    store of that node (each key of the dict at most once), completes and
    leaves every listed key absent from the store: the first loop writes
    each value back under its key, the second loop deletes it.  The other
    keys of the store, the other stores and the ring are unchanged. *)
Theorem self_transfer_deletes m keys s :
  keys ⊆+ (map_to_list (heap s !!! data m)).*1 →
  ∃ s',
    Ring.transfer_data m m keys s = (s', Return tt) ∧
    (∀ k, k ∈ keys → (heap s' !!! data m) !! k = None) ∧
    (∀ k, k ∉ keys → (heap s' !!! data m) !! k = (heap s !!! data m) !! k) ∧
    (∀ l, l ≠ data m → heap s' !!! l = heap s !!! l) ∧
    ring s' = ring s ∧ sorted_server_keys s' = sorted_server_keys s.
Proof.
  intros Hsub.
  assert (NoDup keys) as Hnd.
  { apply submseteq_Permutation in Hsub as [rest Hperm].
    assert (NoDup (map_to_list (heap s !!! data m)).*1) as Hall
      by apply NoDup_fst_map_to_list.
    rewrite Hperm in Hall. by apply NoDup_app in Hall as [? _]. }
  destruct (transfer_data_spec m m keys s Hnd) as (h' & Hrun & Hoth & Hfrom & _).
  { intros k Hk. apply elem_of_keys. by eapply elem_of_submseteq. }
  eexists. split; [exact Hrun|]. simpl. split_and!; [| |by auto|done|done].
  - intros k Hk. by rewrite Hfrom, decide_True.
  - intros k Hk. by rewrite Hfrom, decide_False.
Qed.

Lemma self_transfer_deletes_witness :
  ["key268"; "key1"] ⊆+ (map_to_list (heap ring_two !!! data can3)).*1 ∧
  ∃ s',
    Ring.transfer_data can3 can3 ["key268"; "key1"] ring_two = (s', Return tt) ∧
    (∀ k, k ∈ ["key268"; "key1"] → (heap s' !!! data can3) !! k = None) ∧
    (∀ k, k ∉ ["key268"; "key1"] →
          (heap s' !!! data can3) !! k = (heap ring_two !!! data can3) !! k) ∧
    (∀ l, l ≠ data can3 → heap s' !!! l = heap ring_two !!! l) ∧
    ring s' = ring ring_two ∧
    sorted_server_keys s' = sorted_server_keys ring_two.
Proof.
  assert (["key268"; "key1"]
            ⊆+ (map_to_list (heap ring_two !!! data can3)).*1) as H.
  { apply NoDup_submseteq.
    - by apply (bool_decide_unpack _).
    - intros k Hk. apply elem_of_keys.
      apply elem_of_cons in Hk as [->|Hk]; [by vm_compute; eauto|].
      apply elem_of_cons in Hk as [->|Hk]; [by vm_compute; eauto|].
      by apply elem_of_nil in Hk. }
  split; [exact H|].
  exact (self_transfer_deletes can3 ["key268"; "key1"] ring_two H).
Defined.

(** * Further properties of the code *)

(** ** Placement of data: [add_data] and [remove_data] *)

Section data_placement.

Implicit Types (s : State) (owner : ServerNode) (key : string).

(** On a consistent ring the lookup leads to the node at the circular
    successor of the hashed key, and to no other. *)
Lemma lookup_successor_owner s x q owner :
  ring_inv s → ring s !! q = Some owner →
  successor_position (dom (ring s)) x q →
  lookup_successor (ring s) (sorted_server_keys s) x = Return owner.
Proof.
  intros Hinv Hq Hsucc.
  destruct (lookup_successor_inv s x Hinv) as (q' & n & Hlook & Hq' & Hsucc').
  { apply ring_inv_nonempty; [done|]. intros Hempty.
    by rewrite Hempty, lookup_empty in Hq. }
  assert (q' = q) as -> by (by eapply successor_position_unique).
  congruence.
Qed.

Lemma add_data_owner key value s q owner :
  ring_inv s → ring s !! q = Some owner →
  successor_position (dom (ring s)) (hash_fn key) q →
  Ring.add_data key value s =
    (mkState (ring s) (sorted_server_keys s)
       (<[data owner := <[key := value]> (heap s !!! data owner)]> (heap s)),
     Return tt).
Proof.
  intros Hinv Hq Hsucc.
  by rewrite add_data_eq, (lookup_successor_owner s _ q owner).
Qed.

Lemma remove_data_owner key s q owner :
  ring_inv s → ring s !! q = Some owner →
  successor_position (dom (ring s)) (hash_fn key) q →
  Ring.remove_data key s = ServerNode.remove_data owner key s.
Proof.
  intros Hinv Hq Hsucc.
  by rewrite remove_data_eq, (lookup_successor_owner s _ q owner).
Qed.

End data_placement.

(** X1. On a consistent ring with at least one node, [add_data] completes:
    the node registered at the circular successor of the position of the
    key holds the value under the key afterwards.  The other keys of that
    store, the other stores, [ring] and [sorted_server_keys] are as
    before. *)
Theorem add_data_stores_on_owner key value s :
  ring_inv s → ring s ≠ ∅ →
  ∃ q owner s',
    ring s !! q = Some owner ∧
    successor_position (dom (ring s)) (hash_fn key) q ∧
    Ring.add_data key value s = (s', Return tt) ∧
    ring s' = ring s ∧
    sorted_server_keys s' = sorted_server_keys s ∧
    heap s' !!! data owner = <[key := value]> (heap s !!! data owner) ∧
    ∀ l, l ≠ data owner → heap s' !!! l = heap s !!! l.
Proof.
  intros Hinv Hne.
  destruct (lookup_successor_inv s (hash_fn key) Hinv)
    as (q & owner & _ & Hq & Hsucc); [by apply ring_inv_nonempty|].
  exists q, owner. eexists. split_and!; [done|done| |..].
  - by apply (add_data_owner key value s q owner).
  - done.
  - done.
  - simpl. by rewrite lookup_total_insert_eq.
  - intros l Hl. simpl. by rewrite lookup_total_insert_ne.
Qed.

Lemma add_data_stores_on_owner_witness :
  ring_inv ring_two ∧ ring ring_two ≠ ∅ ∧
  ∃ q owner s',
    ring ring_two !! q = Some owner ∧
    successor_position (dom (ring ring_two)) (hash_fn "key6") q ∧
    Ring.add_data "key6" 8 ring_two = (s', Return tt) ∧
    ring s' = ring ring_two ∧
    sorted_server_keys s' = sorted_server_keys ring_two ∧
    heap s' !!! data owner = <["key6" := 8]> (heap ring_two !!! data owner) ∧
    ∀ l, l ≠ data owner → heap s' !!! l = heap ring_two !!! l.
Proof.
  assert (ring_inv ring_two) as Hinv
    by (vm_compute; split; [repeat constructor|reflexivity]).
  assert (ring ring_two ≠ ∅) as Hne by (by vm_compute).
  split; [exact Hinv|]. split; [exact Hne|].
  exact (add_data_stores_on_owner "key6" 8 ring_two Hinv Hne).
Defined.

(** X2. [add_data] followed by [remove_data] of the same key: both
    complete, the key is absent from the store of its owner afterwards and
    nothing else has changed; when the key was absent before, every store
    is as it was. *)
Theorem add_data_remove_data_round_trip key value s :
  ring_inv s → ring s ≠ ∅ →
  ∃ q owner s1 s2,
    ring s !! q = Some owner ∧
    successor_position (dom (ring s)) (hash_fn key) q ∧
    Ring.add_data key value s = (s1, Return tt) ∧
    Ring.remove_data key s1 = (s2, Return tt) ∧
    ring s2 = ring s ∧
    sorted_server_keys s2 = sorted_server_keys s ∧
    heap s2 !!! data owner = delete key (heap s !!! data owner) ∧
    (∀ l, l ≠ data owner → heap s2 !!! l = heap s !!! l) ∧
    ((heap s !!! data owner) !! key = None →
     ∀ l, heap s2 !!! l = heap s !!! l).
Proof.
  intros Hinv Hne.
  destruct (lookup_successor_inv s (hash_fn key) Hinv)
    as (q & owner & _ & Hq & Hsucc); [by apply ring_inv_nonempty|].
  pose proof (add_data_owner key value s q owner Hinv Hq Hsucc) as Hadd.
  set (s1 := mkState _ _ _) in Hadd.
  assert (Ring.remove_data key s1 =
            (mkState (ring s1) (sorted_server_keys s1)
               (<[data owner := delete key (heap s1 !!! data owner)]> (heap s1)),
             Return tt)) as Hrem.
  { rewrite (remove_data_owner key s1 q owner); [|by apply ring_inv_heap|done..].
    apply (remove_data_Some _ _ value). simpl.
    by rewrite lookup_total_insert_eq, lookup_insert_eq. }
  assert (heap s1 !!! data owner = <[key := value]> (heap s !!! data owner))
    as Hs1 by (simpl; by rewrite lookup_total_insert_eq).
  exists q, owner, s1. eexists.
  split_and!; [done|done|exact Hadd|exact Hrem|done|done| | |]; simpl.
  - by rewrite !lookup_total_insert_eq, delete_insert_eq.
  - intros l Hl. by rewrite !lookup_total_insert_ne.
  - intros Habs l. destruct (decide (l = data owner)) as [->|Hl].
    + rewrite !lookup_total_insert_eq, delete_insert_eq. by apply delete_id.
    + by rewrite !lookup_total_insert_ne.
Qed.

Lemma add_data_remove_data_round_trip_witness :
  ring_inv ring_two ∧ ring ring_two ≠ ∅ ∧
  ∃ q owner s1 s2,
    ring ring_two !! q = Some owner ∧
    successor_position (dom (ring ring_two)) (hash_fn "key6") q ∧
    Ring.add_data "key6" 8 ring_two = (s1, Return tt) ∧
    Ring.remove_data "key6" s1 = (s2, Return tt) ∧
    ring s2 = ring ring_two ∧
    sorted_server_keys s2 = sorted_server_keys ring_two ∧
    heap s2 !!! data owner = delete "key6" (heap ring_two !!! data owner) ∧
    (∀ l, l ≠ data owner → heap s2 !!! l = heap ring_two !!! l) ∧
    ((heap ring_two !!! data owner) !! "key6" = None →
     ∀ l, heap s2 !!! l = heap ring_two !!! l).
Proof.
  assert (ring_inv ring_two) as Hinv
    by (vm_compute; split; [repeat constructor|reflexivity]).
  assert (ring ring_two ≠ ∅) as Hne by (by vm_compute).
  split; [exact Hinv|]. split; [exact Hne|].
  exact (add_data_remove_data_round_trip "key6" 8 ring_two Hinv Hne).
Defined.

(** X3. [remove_data] of a key that the owner of its position does not
    hold raises KeyError (the [del] of [ServerNode.remove_data]) and
    changes nothing, whatever the other stores hold. *)
Theorem remove_data_missing_key key s q owner :
  ring_inv s → ring s !! q = Some owner →
  successor_position (dom (ring s)) (hash_fn key) q →
  (heap s !!! data owner) !! key = None →
  Ring.remove_data key s = (s, Raise KeyError).
Proof.
  intros Hinv Hq Hsucc Habs.
  rewrite (remove_data_owner key s q owner) by done.
  by apply remove_data_None.
Qed.

Lemma remove_data_missing_key_witness :
  ring_inv ring_two ∧ ring ring_two !! 100 = Some can6 ∧
  successor_position (dom (ring ring_two)) (hash_fn "key6") 100 ∧
  (heap ring_two !!! data can6) !! "key6" = None ∧
  Ring.remove_data "key6" ring_two = (ring_two, Raise KeyError).
Proof.
  assert (ring_inv ring_two) as H1
    by (vm_compute; split; [repeat constructor|reflexivity]).
  assert (ring ring_two !! 100 = Some can6) as H2 by (vm_compute; reflexivity).
  assert (successor_position (dom (ring ring_two)) (hash_fn "key6") 100) as H3
    by (by apply (bool_decide_unpack _); vm_compute).
  assert ((heap ring_two !!! data can6) !! "key6" = None) as H4
    by (vm_compute; reflexivity).
  split_and!; try assumption.
  exact (remove_data_missing_key "key6" ring_two 100 can6 H1 H2 H3 H4).
Defined.

(** X4. [remove_data] of a key that its owner holds completes and deletes
    that key from the store of the owner; the other keys, the other
    stores, [ring] and [sorted_server_keys] are as before. *)
Theorem remove_data_deletes key v s q owner :
  ring_inv s → ring s !! q = Some owner →
  successor_position (dom (ring s)) (hash_fn key) q →
  (heap s !!! data owner) !! key = Some v →
  ∃ s',
    Ring.remove_data key s = (s', Return tt) ∧
    ring s' = ring s ∧
    sorted_server_keys s' = sorted_server_keys s ∧
    heap s' !!! data owner = delete key (heap s !!! data owner) ∧
    ∀ l, l ≠ data owner → heap s' !!! l = heap s !!! l.
Proof.
  intros Hinv Hq Hsucc Hv.
  rewrite (remove_data_owner key s q owner) by done.
  rewrite (remove_data_Some _ _ v) by done.
  eexists. split_and!; [done..| |]; simpl.
  - by rewrite lookup_total_insert_eq.
  - intros l Hl. by rewrite lookup_total_insert_ne.
Qed.

Lemma remove_data_deletes_witness :
  ring_inv ring_two ∧ ring ring_two !! 234 = Some can3 ∧
  successor_position (dom (ring ring_two)) (hash_fn "key1") 234 ∧
  (heap ring_two !!! data can3) !! "key1" = Some 5 ∧
  ∃ s',
    Ring.remove_data "key1" ring_two = (s', Return tt) ∧
    ring s' = ring ring_two ∧
    sorted_server_keys s' = sorted_server_keys ring_two ∧
    heap s' !!! data can3 = delete "key1" (heap ring_two !!! data can3) ∧
    ∀ l, l ≠ data can3 → heap s' !!! l = heap ring_two !!! l.
Proof.
  assert (ring_inv ring_two) as H1
    by (vm_compute; split; [repeat constructor|reflexivity]).
  assert (ring ring_two !! 234 = Some can3) as H2 by (vm_compute; reflexivity).
  assert (successor_position (dom (ring ring_two)) (hash_fn "key1") 234) as H3
    by (by apply (bool_decide_unpack _); vm_compute).
  assert ((heap ring_two !!! data can3) !! "key1" = Some 5) as H4
    by (vm_compute; reflexivity).
  split_and!; try assumption.
  exact (remove_data_deletes "key1" 5 ring_two 234 can3 H1 H2 H3 H4).
Defined.

(** X5. [add_data] of a key that is already stored overrides the value:
    after two calls for the same key the ring and every store are what the
    second call alone would have left. *)
Theorem add_data_overrides key v1 v2 s :
  ring_inv s → ring s ≠ ∅ →
  ∃ s1 s2 s2',
    Ring.add_data key v1 s = (s1, Return tt) ∧
    Ring.add_data key v2 s1 = (s2, Return tt) ∧
    Ring.add_data key v2 s = (s2', Return tt) ∧
    ring s2 = ring s2' ∧
    sorted_server_keys s2 = sorted_server_keys s2' ∧
    ∀ l, heap s2 !!! l = heap s2' !!! l.
Proof.
  intros Hinv Hne.
  destruct (lookup_successor_inv s (hash_fn key) Hinv)
    as (q & owner & _ & Hq & Hsucc); [by apply ring_inv_nonempty|].
  pose proof (add_data_owner key v1 s q owner Hinv Hq Hsucc) as Hadd1.
  set (s1 := mkState _ _ _) in Hadd1.
  pose proof (add_data_owner key v2 s1 q owner
                (ring_inv_heap s _ Hinv) Hq Hsucc) as Hadd2.
  pose proof (add_data_owner key v2 s q owner Hinv Hq Hsucc) as Hadd.
  exists s1. eexists. eexists.
  split_and!; [exact Hadd1|exact Hadd2|exact Hadd|done|done|].
  intros l. simpl. destruct (decide (l = data owner)) as [->|Hl].
  - by rewrite !lookup_total_insert_eq, insert_insert_eq.
  - by rewrite !lookup_total_insert_ne.
Qed.

Lemma add_data_overrides_witness :
  ring_inv ring_two ∧ ring ring_two ≠ ∅ ∧
  ∃ s1 s2 s2',
    Ring.add_data "key1" 6 ring_two = (s1, Return tt) ∧
    Ring.add_data "key1" 9 s1 = (s2, Return tt) ∧
    Ring.add_data "key1" 9 ring_two = (s2', Return tt) ∧
    ring s2 = ring s2' ∧
    sorted_server_keys s2 = sorted_server_keys s2' ∧
    ∀ l, heap s2 !!! l = heap s2' !!! l.
Proof.
  assert (ring_inv ring_two) as Hinv
    by (vm_compute; split; [repeat constructor|reflexivity]).
  assert (ring ring_two ≠ ∅) as Hne by (by vm_compute).
  split; [exact Hinv|]. split; [exact Hne|].
  exact (add_data_overrides "key1" 6 9 ring_two Hinv Hne).
Defined.

(** ** Transfer between two stores *)

Section transfer_facts.

Implicit Types (s : State) (from_node to_node : ServerNode).

(** The first loop stops at the first listed key the source lacks. *)
Lemma copy_loop_missing from_node to_node keys : ∀ s,
  (∃ k, k ∈ keys ∧ (heap s !!! data from_node) !! k = None) →
  ∃ h',
    for_each keys (λ key,
      v ← dict_getitem (data from_node) key;
      ServerNode.insert_data to_node key v) s =
      (mkState (ring s) (sorted_server_keys s) h', Raise KeyError) ∧
    h' !!! data from_node = heap s !!! data from_node ∧
    (∀ l, l ≠ data to_node → h' !!! l = heap s !!! l).
Proof.
  induction keys as [|key keys IH]; intros s (k & Hk & Habs).
  { by apply elem_of_nil in Hk. }
  rewrite for_each_cons.
  destruct ((heap s !!! data from_node) !! key) as [v|] eqn:Hv.
  - rewrite (copy_step _ _ _ v) by done. set (s1 := mkState _ _ _).
    assert (heap s1 !!! data from_node = heap s !!! data from_node) as Hfrom.
    { simpl. destruct (decide (data to_node = data from_node)) as [->|Hne].
      - rewrite lookup_total_insert_eq. by apply insert_id.
      - by rewrite lookup_total_insert_ne. }
    destruct (IH s1) as (h' & Hrun & Hsame & Hoth).
    { exists k. rewrite Hfrom. split; [|done].
      apply elem_of_cons in Hk as [->|Hk]; [congruence|done]. }
    exists h'. split_and!; [done|congruence|].
    intros l Hl. rewrite Hoth by done. simpl.
    by rewrite lookup_total_insert_ne.
  - exists (heap s). split_and!; [|done..].
    unfold dict_getitem. munfold. rewrite Hv. by destruct s.
Qed.

End transfer_facts.

(** X6. [transfer_data] between two different stores, with keys drawn
    from the source store: the call completes; every listed key leaves the
    source and is in the destination with the value it had in the source
    (a value the destination had under that key is overridden); the other
    keys of both stores, the other stores and the ring are as before. *)
Theorem transfer_data_moves from_node to_node keys s :
  keys ⊆+ (map_to_list (heap s !!! data from_node)).*1 →
  data to_node ≠ data from_node →
  ∃ s',
    Ring.transfer_data from_node to_node keys s = (s', Return tt) ∧
    ring s' = ring s ∧
    sorted_server_keys s' = sorted_server_keys s ∧
    (∀ k, (heap s' !!! data from_node) !! k =
            if decide (k ∈ keys) then None
            else (heap s !!! data from_node) !! k) ∧
    (∀ k, (heap s' !!! data to_node) !! k =
            if decide (k ∈ keys) then (heap s !!! data from_node) !! k
            else (heap s !!! data to_node) !! k) ∧
    (∀ l, l ≠ data from_node → l ≠ data to_node →
          heap s' !!! l = heap s !!! l).
Proof.
  intros Hsub Hne.
  assert (NoDup keys) as Hnd.
  { apply submseteq_Permutation in Hsub as [rest Hperm].
    assert (NoDup (map_to_list (heap s !!! data from_node)).*1) as Hall
      by apply NoDup_fst_map_to_list.
    rewrite Hperm in Hall. by apply NoDup_app in Hall as [? _]. }
  destruct (transfer_data_spec from_node to_node keys s Hnd)
    as (h' & Hrun & Hoth & Hfrom & Hto).
  { intros k Hk. apply elem_of_keys. by eapply elem_of_submseteq. }
  eexists. split; [exact Hrun|]. simpl. split_and!; [done|done|done| |done].
  by apply Hto.
Qed.

Lemma transfer_data_moves_witness :
  ["key268"; "key1"] ⊆+ (map_to_list (heap ring_two !!! data can3)).*1 ∧
  data can6 ≠ data can3 ∧
  ∃ s',
    Ring.transfer_data can3 can6 ["key268"; "key1"] ring_two
      = (s', Return tt) ∧
    ring s' = ring ring_two ∧
    sorted_server_keys s' = sorted_server_keys ring_two ∧
    (∀ k, (heap s' !!! data can3) !! k =
            if decide (k ∈ ["key268"; "key1"]) then None
            else (heap ring_two !!! data can3) !! k) ∧
    (∀ k, (heap s' !!! data can6) !! k =
            if decide (k ∈ ["key268"; "key1"])
            then (heap ring_two !!! data can3) !! k
            else (heap ring_two !!! data can6) !! k) ∧
    (∀ l, l ≠ data can3 → l ≠ data can6 →
          heap s' !!! l = heap ring_two !!! l).
Proof.
  assert (["key268"; "key1"]
            ⊆+ (map_to_list (heap ring_two !!! data can3)).*1) as H1.
  { apply NoDup_submseteq.
    - by apply (bool_decide_unpack _).
    - intros k Hk. apply elem_of_keys.
      apply elem_of_cons in Hk as [->|Hk]; [by vm_compute; eauto|].
      apply elem_of_cons in Hk as [->|Hk]; [by vm_compute; eauto|].
      by apply elem_of_nil in Hk. }
  assert (data can6 ≠ data can3) as H2 by (vm_compute; by intros [=]).
  split; [exact H1|]. split; [exact H2|].
  exact (transfer_data_moves can3 can6 ["key268"; "key1"] ring_two H1 H2).
Defined.

(** X7. [transfer_data] with a listed key that the source store lacks
    raises KeyError (at [from_node.data[key]]) before anything is deleted:
    the source store is as it was, and so are the ring and every store
    other than the destination's, which holds the keys copied so far. *)
Theorem transfer_data_missing_key from_node to_node keys k s :
  k ∈ keys → (heap s !!! data from_node) !! k = None →
  ∃ s',
    Ring.transfer_data from_node to_node keys s = (s', Raise KeyError) ∧
    ring s' = ring s ∧
    sorted_server_keys s' = sorted_server_keys s ∧
    heap s' !!! data from_node = heap s !!! data from_node ∧
    (∀ l, l ≠ data to_node → heap s' !!! l = heap s !!! l).
Proof.
  intros Hk Habs.
  destruct (copy_loop_missing from_node to_node keys s)
    as (h' & Hrun & Hsame & Hoth); [eauto|].
  eexists. split.
  - unfold Ring.transfer_data, ConsistentHashingRing.transfer_data.
    unfold mbind at 1, M_bind at 1. by rewrite Hrun.
  - by split_and!.
Qed.

Lemma transfer_data_missing_key_witness :
  "key6" ∈ ["key1"; "key6"; "key268"] ∧
  (heap ring_two !!! data can3) !! "key6" = None ∧
  ∃ s',
    Ring.transfer_data can3 can6 ["key1"; "key6"; "key268"] ring_two
      = (s', Raise KeyError) ∧
    ring s' = ring ring_two ∧
    sorted_server_keys s' = sorted_server_keys ring_two ∧
    heap s' !!! data can3 = heap ring_two !!! data can3 ∧
    (∀ l, l ≠ data can6 → heap s' !!! l = heap ring_two !!! l).
Proof.
  assert ("key6" ∈ ["key1"; "key6"; "key268"]) as H1
    by (by apply (bool_decide_unpack _)).
  assert ((heap ring_two !!! data can3) !! "key6" = None) as H2
    by (vm_compute; reflexivity).
  split; [exact H1|]. split; [exact H2|].
  exact (transfer_data_missing_key can3 can6 ["key1"; "key6"; "key268"]
           "key6" ring_two H1 H2).
Defined.

(** ** Removal of a registered server *)

(** X8. [remove_server] of a registered node whose successor has a dict
    of its own completes: every entry of the node is in the store of the
    successor afterwards (overriding what the successor had under the same
    key), the store of the node is empty, no other store has changed, and
    the node is registered no more. *)
Theorem remove_server_moves_all node s q succ :
  let h := hash_fn (name node) in
  ring_inv s → ring s !! h = Some node →
  ring s !! q = Some succ →
  successor_position (dom (ring s)) h q →
  data succ ≠ data node →
  ∃ s',
    Ring.remove_server node s = (s', Return tt) ∧
    ring s' = delete h (ring s) ∧
    (∀ p, p ∈ sorted_server_keys s' ↔ p ∈ sorted_server_keys s ∧ p ≠ h) ∧
    heap s' !!! data node = ∅ ∧
    heap s' !!! data succ = (heap s !!! data node) ∪ (heap s !!! data succ) ∧
    (∀ l, l ≠ data node → l ≠ data succ → heap s' !!! l = heap s !!! l).
Proof.
  intros h Hinv Hh Hq Hsucc Hdata.
  destruct (remove_server_cases node s)
    as [(e & Hc & _)|(succ' & h' & Hlook & Hoth & Hfrom & Hto & Hrun)];
    fold h in Hc || fold h in Hlook, Hrun.
  { rewrite (lookup_successor_owner s h q succ) in Hc by done. done. }
  rewrite (lookup_successor_owner s h q succ) in Hlook by done.
  injection Hlook as <-.
  destruct (list_remove_is_Some (sorted_server_keys s) h) as [l Hl].
  { apply ring_inv_elem_of; eauto. }
  rewrite Hh, Hl in Hrun.
  destruct (list_remove_sorted _ _ _ (proj1 Hinv) Hl) as [_ Hel].
  eexists. split; [exact Hrun|]. simpl.
  split_and!; [done|done|done|by apply Hto|done].
Qed.

Lemma remove_server_moves_all_witness :
  ring_inv ring_two ∧
  ring ring_two !! hash_fn (name can3) = Some can3 ∧
  ring ring_two !! 100 = Some can6 ∧
  successor_position (dom (ring ring_two)) (hash_fn (name can3)) 100 ∧
  data can6 ≠ data can3 ∧
  ∃ s',
    Ring.remove_server can3 ring_two = (s', Return tt) ∧
    ring s' = delete (hash_fn (name can3)) (ring ring_two) ∧
    (∀ p, p ∈ sorted_server_keys s'
          ↔ p ∈ sorted_server_keys ring_two ∧ p ≠ hash_fn (name can3)) ∧
    heap s' !!! data can3 = ∅ ∧
    heap s' !!! data can6
      = (heap ring_two !!! data can3) ∪ (heap ring_two !!! data can6) ∧
    (∀ l, l ≠ data can3 → l ≠ data can6 →
          heap s' !!! l = heap ring_two !!! l).
Proof.
  assert (ring_inv ring_two) as H1
    by (vm_compute; split; [repeat constructor|reflexivity]).
  assert (ring ring_two !! hash_fn (name can3) = Some can3) as H2
    by (vm_compute; reflexivity).
  assert (ring ring_two !! 100 = Some can6) as H3 by (vm_compute; reflexivity).
  assert (successor_position (dom (ring ring_two)) (hash_fn (name can3)) 100)
    as H4 by (by apply (bool_decide_unpack _); vm_compute).
  assert (data can6 ≠ data can3) as H5 by (vm_compute; by intros [=]).
  split_and!; try assumption.
  exact (remove_server_moves_all can3 ring_two 100 can6 H1 H2 H3 H4 H5).
Defined.

(** X9. [remove_server] of a registered node, on a ring that holds another
    node and whose nodes have dicts of their own with no key in common:
    the call completes, the keys present in the stores of the registered
    nodes are the same before and after, and the stores still have no key
    in common. *)
Theorem remove_server_keeps_stored_keys node s q0 :
  let h := hash_fn (name node) in
  ring_inv s → stores_apart s →
  ring s !! h = Some node →
  is_Some (ring s !! q0) → q0 ≠ h →
  ∃ s',
    Ring.remove_server node s = (s', Return tt) ∧
    stored_keys s' = stored_keys s ∧
    stores_apart s'.
Proof.
  intros h Hinv Hapart Hh Hq0 Hne.
  destruct (remove_server_keeps_keys node s q0 Hinv Hh Hq0 Hne)
    as (s' & Hrun & Hkeys).
  { intros q n Hq Hqh. by destruct (Hapart q h n node Hq Hh Hqh). }
  exists s'. split_and!; [done|done|].
  by apply (remove_server_keeps_apart node s).
Qed.

Lemma remove_server_keeps_stored_keys_witness :
  ring_inv ring_two ∧ stores_apart ring_two ∧
  ring ring_two !! hash_fn (name can3) = Some can3 ∧
  is_Some (ring ring_two !! 100) ∧ 100 ≠ hash_fn (name can3) ∧
  ∃ s',
    Ring.remove_server can3 ring_two = (s', Return tt) ∧
    stored_keys s' = stored_keys ring_two ∧
    stores_apart s'.
Proof.
  assert (ring_inv ring_two) as H1
    by (vm_compute; split; [repeat constructor|reflexivity]).
  assert (stores_apart ring_two) as H2
    by (by apply (bool_decide_unpack _); vm_compute).
  assert (ring ring_two !! hash_fn (name can3) = Some can3) as H3
    by (vm_compute; reflexivity).
  assert (is_Some (ring ring_two !! 100)) as H4 by (vm_compute; eauto).
  assert (100 ≠ hash_fn (name can3)) as H5 by (vm_compute; by intros [=]).
  split_and!; try assumption.
  exact (remove_server_keeps_stored_keys can3 ring_two 100 H1 H2 H3 H4 H5).
Defined.

(** ** Addition of a server *)

(** X10. [add_server] on a ring that holds a node already, of a node at a
    free position whose dict and keys no registered node shares, on a ring
    whose nodes have dicts of their own with no key in common: the call
    completes, the keys present in the registered stores are those of
    before together with those the new node brought, and the stores still
    have no key in common. *)
Theorem add_server_keeps_stored_keys node s :
  let h := hash_fn (name node) in
  ring_inv s → stores_apart s →
  ring s ≠ ∅ → ring s !! h = None →
  map_Forall (λ _ n,
    data n ≠ data node ∧
    dom (heap s !!! data n) ##@{gset string} dom (heap s !!! data node))
    (ring s) →
  ∃ s',
    Ring.add_server node s = (s', Return tt) ∧
    stored_keys s' = stored_keys s ∪ dom (heap s !!! data node) ∧
    stores_apart s'.
Proof.
  intros h Hinv Hapart Hne Hfree Hnew.
  destruct (add_server_keeps_keys node s Hinv Hne Hfree)
    as (s' & Hrun & Hkeys).
  { intros q n Hq. by destruct (Hnew q n Hq). }
  exists s'. split_and!; [done|done|].
  by apply (add_server_keeps_apart node s).
Qed.

Lemma add_server_keeps_stored_keys_witness :
  ring_inv ring_two ∧ stores_apart ring_two ∧
  ring ring_two ≠ ∅ ∧ ring ring_two !! hash_fn (name can5) = None ∧
  map_Forall (λ _ n,
    data n ≠ data can5 ∧
    dom (heap ring_two !!! data n)
      ##@{gset string} dom (heap ring_two !!! data can5))
    (ring ring_two) ∧
  ∃ s',
    Ring.add_server can5 ring_two = (s', Return tt) ∧
    stored_keys s' = stored_keys ring_two ∪ dom (heap ring_two !!! data can5) ∧
    stores_apart s'.
Proof.
  assert (ring_inv ring_two) as H1
    by (vm_compute; split; [repeat constructor|reflexivity]).
  assert (stores_apart ring_two) as H2
    by (by apply (bool_decide_unpack _); vm_compute).
  assert (ring ring_two ≠ ∅) as H3 by (by vm_compute).
  assert (ring ring_two !! hash_fn (name can5) = None) as H4
    by (vm_compute; reflexivity).
  assert (map_Forall (λ _ n,
            data n ≠ data can5 ∧
            dom (heap ring_two !!! data n)
              ##@{gset string} dom (heap ring_two !!! data can5))
            (ring ring_two)) as H5
    by (by apply (bool_decide_unpack _); vm_compute).
  split_and!; try assumption.
  exact (add_server_keeps_stored_keys can5 ring_two H1 H2 H3 H4 H5).
Defined.

Section round_trip.

Implicit Types (s : State) (node : ServerNode) (a : list Z).

Lemma list_remove_middle x a1 a2 :
  x ∉ a1 → list_remove x (a1 ++ x :: a2) = Some (a1 ++ a2).
Proof.
  induction a1 as [|y a1 IH]; simpl; intros Hx.
  - by rewrite decide_True.
  - apply not_elem_of_cons in Hx as [Hne Hx].
    rewrite decide_False by done. by rewrite IH.
Qed.

Lemma list_remove_insort x a : x ∉ a → list_remove x (insort a x) = Some a.
Proof.
  intros Hx. unfold insort. rewrite list_remove_middle.
  - by rewrite take_drop.
  - intros Hin. apply Hx. by apply (subseteq_take (bisect a x) a).
Qed.

End round_trip.

(** X11. [add_server] of a node with an empty dict at a free position,
    followed by [remove_server] of that node: both calls complete and the
    ring is back where it was, with the same registrations, the same
    [sorted_server_keys] and the same content in every store. *)
Theorem add_server_remove_server_round_trip node s :
  ring_inv s →
  ring s !! hash_fn (name node) = None →
  heap s !!! data node = ∅ →
  ∃ s1 s2,
    Ring.add_server node s = (s1, Return tt) ∧
    Ring.remove_server node s1 = (s2, Return tt) ∧
    ring s2 = ring s ∧
    sorted_server_keys s2 = sorted_server_keys s ∧
    ∀ l, heap s2 !!! l = heap s !!! l.
Proof.
  intros Hinv Hfree Hempty. set (h := hash_fn (name node)) in *.
  destruct (add_server_fresh_inv node s Hinv Hfree)
    as (q & succ & h1 & Hadd & Hq & Hsucc & Hoth1 & Hfrom1 & Hto1).
  fold h in Hadd, Hq, Hsucc, Hfrom1, Hto1.
  set (s1 := mkState (<[h := node]> (ring s))
               (insort (sorted_server_keys s) h) h1) in *.
  assert (ring_inv s1) as Hinv1.
  { by apply (ring_inv_heap (mkState _ _ (heap s))), ring_inv_register. }
  destruct (remove_server_cases node s1)
    as [(e & Hc & _)|(succ' & h2 & Hlook & Hoth2 & Hfrom2 & Hto2 & Hrem)];
    fold h in Hc || fold h in Hlook, Hrem.
  { by rewrite (lookup_successor_owner s1 h q succ) in Hc. }
  rewrite (lookup_successor_owner s1 h q succ) in Hlook by done.
  injection Hlook as <-.
  assert (h ∉ sorted_server_keys s) as Hnotin.
  { rewrite (ring_inv_elem_of s h Hinv), Hfree. by intros [? ?]. }
  simpl in Hrem.
  rewrite lookup_insert_eq, (list_remove_insort h _ Hnotin) in Hrem.
  exists s1. eexists. split_and!; [exact Hadd|exact Hrem| |done|]; simpl.
  - rewrite delete_insert_eq. by apply delete_id.
  - intros l. simpl in Hoth2, Hfrom2, Hto2.
    destruct (decide (l = data node)) as [->|Hln]; [by rewrite Hfrom2, Hempty|].
    destruct (decide (l = data succ)) as [->|Hls].
    + rewrite Hto2, Hto1, Hfrom1, Hempty by done.
      apply map_eq. intros k.
      rewrite !lookup_union, lookup_filter_below, lookup_filter_not_below.
      rewrite lookup_empty.
      destruct (decide (hash_fn k < h));
        by destruct ((heap s !!! data succ) !! k).
    + by rewrite Hoth2, Hoth1.
Qed.

Lemma add_server_remove_server_round_trip_witness :
  ring_inv ring_two ∧
  ring ring_two !! hash_fn (name can5) = None ∧
  heap ring_two !!! data can5 = ∅ ∧
  ∃ s1 s2,
    Ring.add_server can5 ring_two = (s1, Return tt) ∧
    Ring.remove_server can5 s1 = (s2, Return tt) ∧
    ring s2 = ring ring_two ∧
    sorted_server_keys s2 = sorted_server_keys ring_two ∧
    ∀ l, heap s2 !!! l = heap ring_two !!! l.
Proof.
  assert (ring_inv ring_two) as H1
    by (vm_compute; split; [repeat constructor|reflexivity]).
  assert (ring ring_two !! hash_fn (name can5) = None) as H2
    by (vm_compute; reflexivity).
  assert (heap ring_two !!! data can5 = ∅) as H3 by (vm_compute; reflexivity).
  split_and!; try assumption.
  exact (add_server_remove_server_round_trip can5 ring_two H1 H2 H3).
Defined.

(** X12. Placement after [add_server].  Let the new node be added at a
    free position [h] strictly between two registered positions, [p] the
    nearest below and [q] the nearest above.  Then [add_data] of a key
    whose position is in [[p, q)] completes and stores the value on the
    new node when the position is below [h], on the successor otherwise:
    the split that [add_server] applied to the keys already stored. *)
Theorem add_server_then_add_data node s p q succ key value :
  let h := hash_fn (name node) in
  ring_inv s →
  ring s !! h = None →
  predecessor_position (dom (ring s)) h p →
  successor_position (dom (ring s)) h q → h < q →
  ring s !! q = Some succ →
  p ≤ hash_fn key < q →
  ∃ s1 s2,
    Ring.add_server node s = (s1, Return tt) ∧
    Ring.add_data key value s1 = (s2, Return tt) ∧
    let owner := if decide (hash_fn key < h) then node else succ in
    heap s2 !!! data owner = <[key := value]> (heap s1 !!! data owner) ∧
    ∀ l, l ≠ data owner → heap s2 !!! l = heap s1 !!! l.
Proof.
  intros h Hinv Hfree Hpred Hsucc Hlt Hq Hkey.
  destruct (add_server_fresh_inv node s Hinv Hfree)
    as (q' & succ' & h' & Hadd & _). fold h in Hadd.
  pose proof (add_server_placement node s p q succ _ (hash_fn key)
                Hinv Hfree Hpred Hsucc Hlt Hq Hadd Hkey) as Hlook.
  fold h in Hlook. eexists. eexists. split; [exact Hadd|].
  rewrite add_data_eq, Hlook, insert_data_eq. split; [done|]. simpl.
  split.
  - by rewrite lookup_total_insert_eq.
  - intros l Hl. by rewrite lookup_total_insert_ne.
Qed.

Lemma add_server_then_add_data_witness :
  ring_inv ring_two ∧
  ring ring_two !! hash_fn (name can5) = None ∧
  predecessor_position (dom (ring ring_two)) (hash_fn (name can5)) 100 ∧
  successor_position (dom (ring ring_two)) (hash_fn (name can5)) 234 ∧
  hash_fn (name can5) < 234 ∧
  ring ring_two !! 234 = Some can3 ∧
  100 ≤ hash_fn "key476" < 234 ∧
  ∃ s1 s2,
    Ring.add_server can5 ring_two = (s1, Return tt) ∧
    Ring.add_data "key476" 9 s1 = (s2, Return tt) ∧
    let owner :=
      if decide (hash_fn "key476" < hash_fn (name can5)) then can5 else can3 in
    heap s2 !!! data owner = <["key476" := 9]> (heap s1 !!! data owner) ∧
    ∀ l, l ≠ data owner → heap s2 !!! l = heap s1 !!! l.
Proof.
  assert (ring_inv ring_two) as H1
    by (vm_compute; split; [repeat constructor|reflexivity]).
  assert (ring ring_two !! hash_fn (name can5) = None) as H2
    by (vm_compute; reflexivity).
  assert (predecessor_position (dom (ring ring_two)) (hash_fn (name can5)) 100)
    as H3 by (by apply (bool_decide_unpack _); vm_compute).
  assert (successor_position (dom (ring ring_two)) (hash_fn (name can5)) 234)
    as H4 by (by apply (bool_decide_unpack _); vm_compute).
  assert (hash_fn (name can5) < 234) as H5 by (vm_compute; reflexivity).
  assert (ring ring_two !! 234 = Some can3) as H6 by (vm_compute; reflexivity).
  assert (100 ≤ hash_fn "key476" < 234) as H7
    by (vm_compute; split; [by intros [=]|reflexivity]).
  split_and!; try assumption; try apply H7.
  exact (add_server_then_add_data can5 ring_two 100 234 can3 "key476" 9
           H1 H2 H3 H4 H5 H6 H7).
Defined.

(** ** Calls that raise *)

(** X13. Whether it completes or raises, each of the four operations
    leaves [sorted_server_keys] the strictly ascending list of the keys of
    [ring], when it was so before: no exception is raised between the two
    updates of the position index. *)
Theorem raising_calls_keep_index s :
  ring_inv s →
  (∀ node, ring_inv (after (Ring.add_server node) s)) ∧
  (∀ node, ring_inv (after (Ring.remove_server node) s)) ∧
  (∀ key value, ring_inv (after (Ring.add_data key value) s)) ∧
  (∀ key, ring_inv (after (Ring.remove_data key) s)).
Proof.
  intros Hinv. split_and!.
  - intros node. by apply (do_call_ring_inv (AddServer node)).
  - intros node. by apply (do_call_ring_inv (RemoveServer node)).
  - intros key value. by apply (do_call_ring_inv (AddData key value)).
  - intros key. by apply (do_call_ring_inv (RemoveData key)).
Qed.

Lemma raising_calls_keep_index_witness :
  ring_inv ring_stranger ∧
  (∀ node, ring_inv (after (Ring.add_server node) ring_stranger)) ∧
  (∀ node, ring_inv (after (Ring.remove_server node) ring_stranger)) ∧
  (∀ key value, ring_inv (after (Ring.add_data key value) ring_stranger)) ∧
  (∀ key, ring_inv (after (Ring.remove_data key) ring_stranger)).
Proof.
  assert (ring_inv ring_stranger) as H1
    by (vm_compute; split; [repeat constructor|reflexivity]).
  split; [exact H1|]. exact (raising_calls_keep_index ring_stranger H1).
Defined.

(** ** Positions of the registered servers *)

Section positions.

Implicit Types (s : State) (node : ServerNode) (key : string).

#[local] Strategy expand [hash_fn].

Lemma hash_fn_range key : 0 ≤ hash_fn key < 360.
Proof. exact (Z.mod_pos_bound (MD5.int_of_hexdigest key) 360 eq_refl). Qed.

#[local] Strategy opaque [hash_fn].

Lemma do_call_ring_named c s : ring_named s → ring_named (do_call c s).1.
Proof.
  unfold ring_named. intros Hnamed.
  destruct c as [node|node|key value|key]; simpl.
  - destruct (add_server_cases node s)
      as [[_ Hc]|[Hh [(e & _ & Hc)|(succ & h' & _ & Hc & _)]]];
      rewrite Hc; simpl; [done|by apply map_Forall_insert_2..].
  - destruct (remove_server_cases node s)
      as [(e & _ & Hc)|(succ & h' & _ & _ & _ & _ & Hc)]; rewrite Hc; [done|].
    destruct (ring s !! hash_fn (name node)); [|done].
    destruct (list_remove _ _); simpl; by apply map_Forall_delete.
  - rewrite add_data_eq. by destruct (lookup_successor _ _ _).
  - rewrite remove_data_eq. destruct (lookup_successor _ _ _) as [t|]; [|done].
    destruct ((heap s !!! data t) !! key) as [v|] eqn:Hv.
    + by rewrite (remove_data_Some _ _ v).
    + by rewrite remove_data_None.
Qed.

Lemma reachable_ring_named s : reachable s → ring_named s.
Proof.
  induction 1 as [h|c s _ IH].
  - apply map_Forall_empty.
  - by apply do_call_ring_named.
Qed.

(** A duplicate-free list of positions has at most 360 elements. *)
Lemma positions_length (a : list Z) :
  NoDup a → (∀ p, p ∈ a → 0 ≤ p < 360) → (length a ≤ 360)%nat.
Proof.
  intros Hnd Hrange.
  assert (a ⊆+ Z.of_nat <$> seq 0 360) as Hsub.
  { apply NoDup_submseteq; [done|]. intros p Hp. specialize (Hrange p Hp).
    apply list_elem_of_fmap. exists (Z.to_nat p). split; [lia|].
    apply elem_of_seq. lia. }
  apply submseteq_length in Hsub.
  by rewrite length_fmap, length_seq in Hsub.
Qed.

End positions.

(** X14. In every state that calls of the four operations reach from a
    fresh ring, every node is registered at the position its name hashes
    to, every position of [sorted_server_keys] is in [[0, 360)], and at
    most 360 servers are registered. *)
Theorem reachable_positions s :
  reachable s →
  ring_named s ∧
  (∀ p, p ∈ sorted_server_keys s → 0 ≤ p < 360) ∧
  (length (sorted_server_keys s) ≤ 360)%nat.
Proof.
  intros Hreach.
  pose proof (reachable_ring_inv s Hreach) as Hinv.
  pose proof (reachable_ring_named s Hreach) as Hnamed.
  assert (∀ p, p ∈ sorted_server_keys s → 0 ≤ p < 360) as Hrange.
  { intros p [n Hn]%(ring_inv_elem_of s p Hinv).
    rewrite <- (Hnamed p n Hn). apply hash_fn_range. }
  split_and!; [done|done|].
  apply positions_length; [by apply ring_inv_NoDup|done].
Qed.

Lemma reachable_positions_witness :
  reachable ring_two ∧
  ring_named ring_two ∧
  (∀ p, p ∈ sorted_server_keys ring_two → 0 ≤ p < 360) ∧
  (length (sorted_server_keys ring_two) ≤ 360)%nat.
Proof.
  assert (reachable ring_two) as H.
  { assert (ring_two =
              (do_call (AddData "key1" 5)
                 (do_call (AddData "key268" 8)
                    (do_call (AddData "key476" 7)
                       (do_call (AddServer can3)
                          (do_call (AddServer can6) init).1).1).1).1).1) as ->
      by (vm_compute; reflexivity).
    repeat apply reachable_call. apply reachable_init. }
  split; [exact H|]. exact (reachable_positions ring_two H).
Defined.

(** ** Outcomes of the membership changes *)

(** X15. [add_server] on a ring with no node completes: the node is the
    only registration afterwards.  It is its own successor, so that the
    entries it came with whose keys hash below its position are deleted
    from its store; the others stay, and no other store changes. *)
Theorem add_server_first_node node s :
  let h := hash_fn (name node) in
  ring s = ∅ → sorted_server_keys s = [] →
  ∃ s',
    Ring.add_server node s = (s', Return tt) ∧
    ring s' = {[h := node]} ∧
    sorted_server_keys s' = [h] ∧
    heap s' !!! data node =
      filter (λ kv, ¬ hash_fn kv.1 < h) (heap s !!! data node) ∧
    (∀ l, l ≠ data node → heap s' !!! l = heap s !!! l).
Proof.
  intros h Hring Hsorted.
  assert (ring_inv s) as Hinv.
  { split; [rewrite Hsorted; constructor|].
    by rewrite Hsorted, Hring, dom_empty_L. }
  assert (ring s !! h = None) as Hfree by (by rewrite Hring, lookup_empty).
  destruct (add_server_fresh_inv node s Hinv Hfree)
    as (q & succ & h' & Hadd & Hq & Hsucc & Hoth & Hfrom & _).
  fold h in Hadd, Hq, Hsucc, Hfrom.
  rewrite Hring, insert_empty in Hadd, Hq, Hsucc.
  apply lookup_singleton_Some in Hq as [<- <-].
  rewrite Hsorted in Hadd.
  eexists. split; [exact Hadd|]. simpl. split_and!; [done|done|done|].
  intros l Hl. by apply Hoth.
Qed.

Lemma add_server_first_node_witness :
  ring ring_stranger_base = ∅ ∧ sorted_server_keys ring_stranger_base = [] ∧
  ∃ s',
    Ring.add_server can2 ring_stranger_base = (s', Return tt) ∧
    ring s' = {[hash_fn (name can2) := can2]} ∧
    sorted_server_keys s' = [hash_fn (name can2)] ∧
    heap s' !!! data can2 =
      filter (λ kv, ¬ hash_fn kv.1 < hash_fn (name can2))
        (heap ring_stranger_base !!! data can2) ∧
    (∀ l, l ≠ data can2 → heap s' !!! l = heap ring_stranger_base !!! l).
Proof.
  split; [reflexivity|]. split; [reflexivity|].
  exact (add_server_first_node can2 ring_stranger_base eq_refl eq_refl).
Defined.

(** X16. On a consistent ring [add_server] has two outcomes only: when
    the position of the node is taken it raises KeyError and changes
    nothing; when the position is free it completes and registers the
    node, in [ring] and at its place in [sorted_server_keys].  Neither the
    successor lookup nor the transfer raises. *)
Theorem add_server_outcomes node s :
  let h := hash_fn (name node) in
  ring_inv s →
  (is_Some (ring s !! h) ∧ Ring.add_server node s = (s, Raise KeyError)) ∨
  (ring s !! h = None ∧
   ∃ s',
     Ring.add_server node s = (s', Return tt) ∧
     ring s' = <[h := node]> (ring s) ∧
     (∀ p, p ∈ sorted_server_keys s' ↔ p = h ∨ p ∈ sorted_server_keys s)).
Proof.
  intros h Hinv. destruct (ring s !! h) as [n|] eqn:Hh.
  - left. split; [eauto|]. apply add_server_duplicate. fold h. eauto.
  - right. split; [done|].
    destruct (add_server_fresh_inv node s Hinv Hh)
      as (q & succ & h' & Hadd & _). fold h in Hadd.
    eexists. split; [exact Hadd|]. simpl. split; [done|].
    intros p. apply elem_of_insort.
Qed.

Lemma add_server_outcomes_witness :
  ring_inv ring_two ∧
  ((is_Some (ring ring_two !! hash_fn (name can58)) ∧
    Ring.add_server can58 ring_two = (ring_two, Raise KeyError)) ∨
   (ring ring_two !! hash_fn (name can58) = None ∧
    ∃ s',
      Ring.add_server can58 ring_two = (s', Return tt) ∧
      ring s' = <[hash_fn (name can58) := can58]> (ring ring_two) ∧
      (∀ p, p ∈ sorted_server_keys s'
            ↔ p = hash_fn (name can58) ∨ p ∈ sorted_server_keys ring_two))).
Proof.
  assert (ring_inv ring_two) as H1
    by (vm_compute; split; [repeat constructor|reflexivity]).
  split; [exact H1|]. exact (add_server_outcomes can58 ring_two H1).
Defined.

(** X17. On a consistent ring [remove_server] completes exactly when a
    node is registered at the position the name of the given node hashes
    to, be it the given node or another one with a colliding name: that
    registration is the one deleted.  Otherwise the call raises and leaves
    [ring] and [sorted_server_keys] as they were. *)
Theorem remove_server_outcomes node s :
  let h := hash_fn (name node) in
  ring_inv s →
  (is_Some (ring s !! h) ∧
   ∃ s',
     Ring.remove_server node s = (s', Return tt) ∧
     ring s' = delete h (ring s) ∧
     (∀ p, p ∈ sorted_server_keys s' ↔ p ∈ sorted_server_keys s ∧ p ≠ h)) ∨
  (ring s !! h = None ∧
   ∃ s' e,
     Ring.remove_server node s = (s', Raise e) ∧
     ring s' = ring s ∧
     sorted_server_keys s' = sorted_server_keys s ∧
     (e = ZeroDivisionError ↔ ring s = ∅)).
Proof.
  intros h Hinv.
  destruct (remove_server_cases node s)
    as [(e & Hlook & Hrun)|(succ & h' & Hlook & _ & _ & _ & Hrun)];
    fold h in Hlook, Hrun.
  - (* the lookup raises: the ring is empty *)
    assert (ring s = ∅) as Hempty.
    { destruct (decide (ring s = ∅)) as [|Hne]; [done|].
      destruct (lookup_successor_inv s h Hinv) as (? & ? & Hl & _);
        [by apply ring_inv_nonempty|congruence]. }
    right. split; [by rewrite Hempty, lookup_empty|].
    exists s, e. split_and!; [done..|].
    assert (sorted_server_keys s = []) as Hnil.
    { destruct (sorted_server_keys s) as [|p a] eqn:Ha; [done|].
      assert (is_Some (ring s !! p)) as [n Hn].
      { apply (ring_inv_elem_of s p Hinv). rewrite Ha. by left. }
      by rewrite Hempty, lookup_empty in Hn. }
    rewrite Hnil, lookup_successor_nil in Hlook. injection Hlook as <-.
    done.
  - destruct (ring s !! h) as [n|] eqn:Hh.
    + left. split; [eauto|].
      destruct (list_remove_is_Some (sorted_server_keys s) h) as [l Hl].
      { apply ring_inv_elem_of; eauto. }
      rewrite Hl in Hrun.
      destruct (list_remove_sorted _ _ _ (proj1 Hinv) Hl) as [_ Hel].
      eexists. split; [exact Hrun|]. by split.
    + right. split; [done|]. eexists. exists KeyError.
      split_and!; [exact Hrun|done|done|]. split; [done|].
      intros Hempty. exfalso. revert Hlook. unfold lookup_successor.
      assert (sorted_server_keys s = []) as ->.
      { destruct (sorted_server_keys s) as [|p a] eqn:Ha; [done|].
        assert (is_Some (ring s !! p)) as [n Hn].
        { apply (ring_inv_elem_of s p Hinv). rewrite Ha. by left. }
        by rewrite Hempty, lookup_empty in Hn. }
      done.
Qed.

Lemma remove_server_outcomes_witness :
  ring_inv ring_two ∧
  ((is_Some (ring ring_two !! hash_fn (name can58)) ∧
    ∃ s',
      Ring.remove_server can58 ring_two = (s', Return tt) ∧
      ring s' = delete (hash_fn (name can58)) (ring ring_two) ∧
      (∀ p, p ∈ sorted_server_keys s'
            ↔ p ∈ sorted_server_keys ring_two ∧ p ≠ hash_fn (name can58))) ∨
   (ring ring_two !! hash_fn (name can58) = None ∧
    ∃ s' e,
      Ring.remove_server can58 ring_two = (s', Raise e) ∧
      ring s' = ring ring_two ∧
      sorted_server_keys s' = sorted_server_keys ring_two ∧
      (e = ZeroDivisionError ↔ ring ring_two = ∅))).
Proof.
  assert (ring_inv ring_two) as H1
    by (vm_compute; split; [repeat constructor|reflexivity]).
  split; [exact H1|]. exact (remove_server_outcomes can58 ring_two H1).
Defined.

(** ** The successor of a registered node *)

(** X18. On a consistent ring that holds another node, the successor of a
    registered node is registered at a position other than the node's:
    [get_successor_node] returns the node itself only when it is the only
    one. *)
Theorem get_successor_node_other node s q0 :
  let h := hash_fn (name node) in
  ring_inv s → ring s !! h = Some node →
  is_Some (ring s !! q0) → q0 ≠ h →
  ∃ q succ,
    Ring.get_successor_node node s = (s, Return succ) ∧
    ring s !! q = Some succ ∧ q ≠ h ∧
    successor_position (dom (ring s)) h q.
Proof.
  intros h Hinv Hh Hq0 Hne.
  destruct (lookup_successor_inv s h Hinv) as (q & succ & Hlook & Hq & Hsucc).
  { apply ring_inv_nonempty; [done|]. intros Hempty.
    by rewrite Hempty, lookup_empty in Hh. }
  exists q, succ. rewrite get_successor_node_eq. fold h. rewrite Hlook.
  split_and!; [done|done| |done].
  eapply successor_position_other; [done| |done]. by apply elem_of_dom.
Qed.

Lemma get_successor_node_other_witness :
  ring_inv ring_two ∧
  ring ring_two !! hash_fn (name can3) = Some can3 ∧
  is_Some (ring ring_two !! 100) ∧ 100 ≠ hash_fn (name can3) ∧
  ∃ q succ,
    Ring.get_successor_node can3 ring_two = (ring_two, Return succ) ∧
    ring ring_two !! q = Some succ ∧ q ≠ hash_fn (name can3) ∧
    successor_position (dom (ring ring_two)) (hash_fn (name can3)) q.
Proof.
  assert (ring_inv ring_two) as H1
    by (vm_compute; split; [repeat constructor|reflexivity]).
  assert (ring ring_two !! hash_fn (name can3) = Some can3) as H2
    by (vm_compute; reflexivity).
  assert (is_Some (ring ring_two !! 100)) as H3 by (vm_compute; eauto).
  assert (100 ≠ hash_fn (name can3)) as H4 by (vm_compute; by intros [=]).
  split_and!; try assumption.
  exact (get_successor_node_other can3 ring_two 100 H1 H2 H3 H4).
Defined.

(** ** Keys left behind by [add_server] *)

(** X19. [add_server] of a node above every registered position takes
    the node at the smallest position as successor, by wrap-around, and
    its filter [hash_fn(key) < hash_fn(node.name)] also selects the keys
    of that successor that hash below the smallest position.  Such a key
    is moved to the new node, while the placement lookup still leads to
    the old owner: [remove_data] of the key raises KeyError afterwards. *)
Theorem add_server_above_all_strands_keys node s q first key v :
  let h := hash_fn (name node) in
  ring_inv s →
  ring s !! h = None →
  set_Forall (λ p, q ≤ p ∧ p < h) (dom (ring s)) →
  ring s !! q = Some first →
  data node ≠ data first →
  (heap s !!! data first) !! key = Some v →
  hash_fn key < q →
  ∃ s',
    Ring.add_server node s = (s', Return tt) ∧
    (heap s' !!! data first) !! key = None ∧
    (heap s' !!! data node) !! key = Some v ∧
    Ring.remove_data key s' = (s', Raise KeyError).
Proof.
  intros h Hinv Hfree Hall Hq Hdata Hv Hkey.
  assert (q < h) as Hqh.
  { apply (Hall q). apply elem_of_dom. eauto. }
  destruct (add_server_fresh_inv node s Hinv Hfree)
    as (q' & succ & h' & Hadd & Hq' & Hsucc & Hoth & Hfrom & Hto).
  fold h in Hadd, Hq', Hsucc, Hfrom, Hto.
  set (r1 := <[h := node]> (ring s)) in *.
  assert (∀ y, y ∈ dom r1 → q ≤ y ∧ y ≤ h) as Hdom.
  { intros y Hy. unfold r1 in Hy. rewrite dom_insert_L in Hy.
    apply elem_of_union in Hy as [Hy%elem_of_singleton|Hy]; [lia|].
    specialize (Hall y Hy). simpl in Hall. lia. }
  assert (q ∈ dom r1) as Hq1.
  { apply elem_of_dom. unfold r1. rewrite lookup_insert_ne by lia. eauto. }
  assert (q' = q) as ->.
  { apply (successor_position_unique (dom r1) h); [done|].
    split; [done|]. right. split; intros y Hy; by apply Hdom. }
  unfold r1 in Hq'. rewrite lookup_insert_ne in Hq' by lia.
  assert (succ = first) as -> by congruence.
  set (s' := mkState r1 (insort (sorted_server_keys s) h) h') in *.
  assert ((heap s' !!! data first) !! key = None) as Hgone.
  { simpl. rewrite Hfrom, lookup_filter_not_below.
    rewrite decide_True by lia. done. }
  exists s'. split_and!; [done|done| |].
  - simpl. rewrite Hto by done.
    apply lookup_union_Some_l. rewrite lookup_filter_below.
    rewrite decide_True by lia. done.
  - assert (ring_inv s') as Hinv'.
    { by apply (ring_inv_heap (mkState _ _ (heap s))), ring_inv_register. }
    rewrite (remove_data_owner key s' q first); [|done| |].
    + by apply remove_data_None.
    + simpl. unfold r1. by rewrite lookup_insert_ne by lia.
    + split; [done|]. left. split; [done|].
      intros y Hy _. by apply Hdom.
Qed.

Lemma add_server_above_all_strands_keys_witness :
  ring_inv ring_wrap ∧
  ring ring_wrap !! hash_fn (name can1) = None ∧
  set_Forall (λ p, 100 ≤ p ∧ p < hash_fn (name can1)) (dom (ring ring_wrap)) ∧
  ring ring_wrap !! 100 = Some can6 ∧
  data can1 ≠ data can6 ∧
  (heap ring_wrap !!! data can6) !! "key6" = Some 8 ∧
  hash_fn "key6" < 100 ∧
  ∃ s',
    Ring.add_server can1 ring_wrap = (s', Return tt) ∧
    (heap s' !!! data can6) !! "key6" = None ∧
    (heap s' !!! data can1) !! "key6" = Some 8 ∧
    Ring.remove_data "key6" s' = (s', Raise KeyError).
Proof.
  assert (ring_inv ring_wrap) as H1
    by (vm_compute; split; [repeat constructor|reflexivity]).
  assert (ring ring_wrap !! hash_fn (name can1) = None) as H2
    by (vm_compute; reflexivity).
  assert (set_Forall (λ p, 100 ≤ p ∧ p < hash_fn (name can1))
            (dom (ring ring_wrap))) as H3
    by (by apply (bool_decide_unpack _); vm_compute).
  assert (ring ring_wrap !! 100 = Some can6) as H4 by (vm_compute; reflexivity).
  assert (data can1 ≠ data can6) as H5 by (vm_compute; by intros [=]).
  assert ((heap ring_wrap !!! data can6) !! "key6" = Some 8) as H6
    by (vm_compute; reflexivity).
  assert (hash_fn "key6" < 100) as H7 by (vm_compute; reflexivity).
  split_and!; try assumption.
  exact (add_server_above_all_strands_keys can1 ring_wrap 100 can6 "key6" 8
           H1 H2 H3 H4 H5 H6 H7).
Defined.

(** X20. [add_server] of a node below every registered position leaves
    on its successor the keys that hash at or above the largest position,
    since they do not pass the filter [hash_fn(key) < hash_fn(node.name)],
    while the placement lookup, wrapping around, now leads to the new
    node: [remove_data] of such a key raises KeyError afterwards. *)
Theorem add_server_below_all_strands_keys node s q first key v :
  let h := hash_fn (name node) in
  ring_inv s →
  ring s !! h = None →
  set_Forall (λ p, q ≤ p ∧ h < p ∧ p ≤ hash_fn key) (dom (ring s)) →
  ring s !! q = Some first →
  data node ≠ data first →
  (heap s !!! data first) !! key = Some v →
  (heap s !!! data node) !! key = None →
  ∃ s',
    Ring.add_server node s = (s', Return tt) ∧
    (heap s' !!! data first) !! key = Some v ∧
    (heap s' !!! data node) !! key = None ∧
    Ring.remove_data key s' = (s', Raise KeyError).
Proof.
  intros h Hinv Hfree Hall Hq Hdata Hv Hnone.
  assert (q ∈ dom (ring s)) as Hqd by (apply elem_of_dom; eauto).
  pose proof (Hall q Hqd) as (_ & Hhq & Hqk). simpl in Hhq, Hqk.
  destruct (add_server_fresh_inv node s Hinv Hfree)
    as (q' & succ & h' & Hadd & Hq' & Hsucc & Hoth & Hfrom & Hto).
  fold h in Hadd, Hq', Hsucc, Hfrom, Hto.
  set (r1 := <[h := node]> (ring s)) in *.
  assert (∀ y, y ∈ dom r1 → y = h ∨ (q ≤ y ∧ h < y ∧ y ≤ hash_fn key))
    as Hdom.
  { intros y Hy. unfold r1 in Hy. rewrite dom_insert_L in Hy.
    apply elem_of_union in Hy as [Hy%elem_of_singleton|Hy]; [by left|].
    right. by apply Hall. }
  assert (q ∈ dom r1) as Hq1.
  { apply elem_of_dom. unfold r1. rewrite lookup_insert_ne by lia. eauto. }
  assert (h ∈ dom r1) as Hh1.
  { apply elem_of_dom. unfold r1. rewrite lookup_insert_eq. eauto. }
  assert (q' = q) as ->.
  { apply (successor_position_unique (dom r1) h); [done|].
    split; [done|]. left. split; [done|]. intros y Hy Hlt.
    destruct (Hdom y Hy) as [->|(? & _)]; [lia|done]. }
  unfold r1 in Hq'. rewrite lookup_insert_ne in Hq' by lia.
  assert (succ = first) as -> by congruence.
  set (s' := mkState r1 (insort (sorted_server_keys s) h) h') in *.
  assert ((heap s' !!! data node) !! key = None) as Hnode.
  { simpl. rewrite Hto by done. apply lookup_union_None. split; [|done].
    rewrite lookup_filter_below. by rewrite decide_False by lia. }
  exists s'. split_and!; [done| |done|].
  - simpl. rewrite Hfrom, lookup_filter_not_below.
    by rewrite decide_False by lia.
  - assert (ring_inv s') as Hinv'.
    { by apply (ring_inv_heap (mkState _ _ (heap s))), ring_inv_register. }
    rewrite (remove_data_owner key s' h node); [|done| |].
    + by apply remove_data_None.
    + simpl. unfold r1. by rewrite lookup_insert_eq.
    + split; [done|]. right. split; intros y Hy.
      * destruct (Hdom y Hy) as [->|(_ & _ & ?)]; [lia|done].
      * destruct (Hdom y Hy) as [->|(_ & ? & _)]; [done|lia].
Qed.

Lemma add_server_below_all_strands_keys_witness :
  ring_inv ring_high ∧
  ring ring_high !! hash_fn (name can11) = None ∧
  set_Forall (λ p, 100 ≤ p ∧ hash_fn (name can11) < p ∧ p ≤ hash_fn "key2")
    (dom (ring ring_high)) ∧
  ring ring_high !! 100 = Some can6 ∧
  data can11 ≠ data can6 ∧
  (heap ring_high !!! data can6) !! "key2" = Some 6 ∧
  (heap ring_high !!! data can11) !! "key2" = None ∧
  ∃ s',
    Ring.add_server can11 ring_high = (s', Return tt) ∧
    (heap s' !!! data can6) !! "key2" = Some 6 ∧
    (heap s' !!! data can11) !! "key2" = None ∧
    Ring.remove_data "key2" s' = (s', Raise KeyError).
Proof.
  assert (ring_inv ring_high) as H1
    by (vm_compute; split; [repeat constructor|reflexivity]).
  assert (ring ring_high !! hash_fn (name can11) = None) as H2
    by (vm_compute; reflexivity).
  assert (set_Forall
            (λ p, 100 ≤ p ∧ hash_fn (name can11) < p ∧ p ≤ hash_fn "key2")
            (dom (ring ring_high))) as H3
    by (by apply (bool_decide_unpack _); vm_compute).
  assert (ring ring_high !! 100 = Some can6) as H4 by (vm_compute; reflexivity).
  assert (data can11 ≠ data can6) as H5 by (vm_compute; by intros [=]).
  assert ((heap ring_high !!! data can6) !! "key2" = Some 6) as H6
    by (vm_compute; reflexivity).
  assert ((heap ring_high !!! data can11) !! "key2" = None) as H7
    by (vm_compute; reflexivity).
  split_and!; try assumption.
  exact (add_server_below_all_strands_keys can11 ring_high 100 can6 "key2" 6
           H1 H2 H3 H4 H5 H6 H7).
Defined.

(** ** Keys stay within reach across membership changes *)

(** When [h] is the circular successor of [x] and [q] is the circular
    successor of [h], [q] is the circular successor of [x] once [h] is
    taken out. *)
Lemma successor_position_reroute (positions : gset Z) x h q :
  successor_position positions x h →
  successor_position positions h q → q ≠ h →
  successor_position (positions ∖ {[h]}) x q.
Proof.
  intros (Hh & Hx) (Hq & Hhq) Hne. split.
  { apply elem_of_difference. split; [done|]. by apply not_elem_of_singleton. }
  destruct Hx as [[Hxh Hmin]|[Hallx Hhmin]],
           Hhq as [[Hlt Hqmin]|[Hall Hqmin]].
  - left. split; [lia|].
    intros y [Hy Hyh%not_elem_of_singleton]%elem_of_difference Hxy.
    specialize (Hmin y Hy Hxy). apply Hqmin; [done|]. lia.
  - right. split; [|intros y [Hy _]%elem_of_difference; by apply Hqmin].
    intros y [Hy Hyh%not_elem_of_singleton]%elem_of_difference. simpl.
    destruct (decide (x < y)) as [Hxy|]; [|lia].
    specialize (Hmin y Hy Hxy). specialize (Hall y Hy). simpl in Hall. lia.
  - right. split; [intros y [Hy _]%elem_of_difference; by apply Hallx|].
    intros y [Hy Hyh%not_elem_of_singleton]%elem_of_difference. simpl.
    specialize (Hhmin y Hy). simpl in Hhmin. apply Hqmin; [done|]. lia.
  - specialize (Hqmin h Hh). specialize (Hhmin q Hq). simpl in *. lia.
Qed.

(** X21. After [remove_server] of a registered node whose successor is
    at another position and has a dict of its own, a key that the node
    held and that was placed on it (the node's position is the circular
    successor of the key's) is on the successor, and that is where the
    placement lookup now leads: [remove_data] of the key completes and
    deletes it there. *)
Theorem remove_server_keys_found node s q succ key v :
  let h := hash_fn (name node) in
  ring_inv s → ring s !! h = Some node →
  ring s !! q = Some succ →
  successor_position (dom (ring s)) h q → q ≠ h →
  data succ ≠ data node →
  (heap s !!! data node) !! key = Some v →
  successor_position (dom (ring s)) (hash_fn key) h →
  ∃ s1 s2,
    Ring.remove_server node s = (s1, Return tt) ∧
    (heap s1 !!! data succ) !! key = Some v ∧
    Ring.remove_data key s1 = (s2, Return tt) ∧
    heap s2 !!! data succ = delete key (heap s1 !!! data succ) ∧
    ∀ l, l ≠ data succ → heap s2 !!! l = heap s1 !!! l.
Proof.
  intros h Hinv Hh Hq Hsucc Hne Hdata Hv Hkey.
  destruct (remove_server_cases node s)
    as [(e & Hc & _)|(succ' & h' & Hlook & Hoth & Hfrom & Hto & Hrun)];
    fold h in Hc || fold h in Hlook, Hrun.
  { rewrite (lookup_successor_owner s h q succ) in Hc by done. done. }
  rewrite (lookup_successor_owner s h q succ) in Hlook by done.
  injection Hlook as <-.
  destruct (list_remove_is_Some (sorted_server_keys s) h) as [l Hl].
  { apply ring_inv_elem_of; eauto. }
  rewrite Hh, Hl in Hrun.
  set (s1 := mkState (delete h (ring s)) l h') in *.
  assert (ring_inv s1) as Hinv1 by (by eapply remove_server_ring_inv).
  assert ((heap s1 !!! data succ) !! key = Some v) as Hv1.
  { simpl. rewrite Hto by done. by apply lookup_union_Some_l. }
  exists s1. eexists. split; [done|]. split; [done|].
  rewrite (remove_data_owner key s1 q succ); [| done | |].
  - rewrite (remove_data_Some succ key v s1 Hv1). split; [done|]. simpl.
    split.
    + by rewrite lookup_total_insert_eq.
    + intros l' Hl'. by rewrite lookup_total_insert_ne.
  - simpl. by rewrite lookup_delete_ne.
  - simpl. rewrite dom_delete_L. by apply successor_position_reroute.
Qed.

Lemma remove_server_keys_found_witness :
  ring_inv ring_two ∧
  ring ring_two !! hash_fn (name can3) = Some can3 ∧
  ring ring_two !! 100 = Some can6 ∧
  successor_position (dom (ring ring_two)) (hash_fn (name can3)) 100 ∧
  100 ≠ hash_fn (name can3) ∧
  data can6 ≠ data can3 ∧
  (heap ring_two !!! data can3) !! "key476" = Some 7 ∧
  successor_position (dom (ring ring_two)) (hash_fn "key476")
    (hash_fn (name can3)) ∧
  ∃ s1 s2,
    Ring.remove_server can3 ring_two = (s1, Return tt) ∧
    (heap s1 !!! data can6) !! "key476" = Some 7 ∧
    Ring.remove_data "key476" s1 = (s2, Return tt) ∧
    heap s2 !!! data can6 = delete "key476" (heap s1 !!! data can6) ∧
    ∀ l, l ≠ data can6 → heap s2 !!! l = heap s1 !!! l.
Proof.
  assert (ring_inv ring_two) as H1
    by (vm_compute; split; [repeat constructor|reflexivity]).
  assert (ring ring_two !! hash_fn (name can3) = Some can3) as H2
    by (vm_compute; reflexivity).
  assert (ring ring_two !! 100 = Some can6) as H3 by (vm_compute; reflexivity).
  assert (successor_position (dom (ring ring_two)) (hash_fn (name can3)) 100)
    as H4 by (by apply (bool_decide_unpack _); vm_compute).
  assert (100 ≠ hash_fn (name can3)) as H5 by (vm_compute; by intros [=]).
  assert (data can6 ≠ data can3) as H6 by (vm_compute; by intros [=]).
  assert ((heap ring_two !!! data can3) !! "key476" = Some 7) as H7
    by (vm_compute; reflexivity).
  assert (successor_position (dom (ring ring_two)) (hash_fn "key476")
            (hash_fn (name can3))) as H8
    by (by apply (bool_decide_unpack _); vm_compute).
  split_and!; try assumption.
  exact (remove_server_keys_found can3 ring_two 100 can6 "key476" 7
           H1 H2 H3 H4 H5 H6 H7 H8).
Defined.

(** X22. After [add_server] of a node with a dict of its own at a free
    position [h] strictly between two registered positions, [p] the
    nearest below and [q] the nearest above, a key that the successor
    held and whose position is in [[p, q)] is where the placement lookup
    leads: on the new node when its position is below [h], on the
    successor otherwise.  [remove_data] of the key completes and deletes
    it there. *)
Theorem add_server_keys_found node s p q succ key v :
  let h := hash_fn (name node) in
  ring_inv s →
  ring s !! h = None →
  predecessor_position (dom (ring s)) h p →
  successor_position (dom (ring s)) h q → h < q →
  ring s !! q = Some succ →
  data node ≠ data succ →
  (heap s !!! data succ) !! key = Some v →
  p ≤ hash_fn key < q →
  ∃ s1 s2,
    Ring.add_server node s = (s1, Return tt) ∧
    Ring.remove_data key s1 = (s2, Return tt) ∧
    let owner := if decide (hash_fn key < h) then node else succ in
    (heap s1 !!! data owner) !! key = Some v ∧
    heap s2 !!! data owner = delete key (heap s1 !!! data owner) ∧
    ∀ l, l ≠ data owner → heap s2 !!! l = heap s1 !!! l.
Proof.
  intros h Hinv Hfree Hpred Hsucc Hlt Hq Hne Hv Hkey.
  destruct (add_server_fresh_inv node s Hinv Hfree)
    as (q' & succ' & h' & Hadd & Hq' & Hsucc' & Hoth & Hfrom & Hto).
  fold h in Hadd, Hq', Hsucc', Hfrom, Hto.
  assert (q' = q) as -> by (by eapply successor_after_register).
  rewrite lookup_insert_ne in Hq' by lia.
  assert (succ' = succ) as -> by congruence.
  pose proof (add_server_placement node s p q succ _ (hash_fn key)
                Hinv Hfree Hpred Hsucc Hlt Hq Hadd Hkey) as Hlook.
  fold h in Hlook.
  set (s1 := mkState (<[h := node]> (ring s))
               (insort (sorted_server_keys s) h) h') in *.
  set (owner := if decide (hash_fn key < h) then node else succ) in *.
  assert ((heap s1 !!! data owner) !! key = Some v) as Hv1.
  { unfold owner. simpl. destruct (decide (hash_fn key < h)) as [Hb|Hb].
    - rewrite Hto by done. apply lookup_union_Some_l.
      rewrite lookup_filter_below. by rewrite decide_True.
    - rewrite Hfrom, lookup_filter_not_below. by rewrite decide_False. }
  exists s1. eexists. split; [done|].
  rewrite remove_data_eq, Hlook, (remove_data_Some owner key v s1 Hv1).
  split; [done|]. simpl. split_and!; [done| |].
  - by rewrite lookup_total_insert_eq.
  - intros l Hl. by rewrite lookup_total_insert_ne.
Qed.

Lemma add_server_keys_found_witness :
  ring_inv ring_two ∧
  ring ring_two !! hash_fn (name can5) = None ∧
  predecessor_position (dom (ring ring_two)) (hash_fn (name can5)) 100 ∧
  successor_position (dom (ring ring_two)) (hash_fn (name can5)) 234 ∧
  hash_fn (name can5) < 234 ∧
  ring ring_two !! 234 = Some can3 ∧
  data can5 ≠ data can3 ∧
  (heap ring_two !!! data can3) !! "key1" = Some 5 ∧
  100 ≤ hash_fn "key1" < 234 ∧
  ∃ s1 s2,
    Ring.add_server can5 ring_two = (s1, Return tt) ∧
    Ring.remove_data "key1" s1 = (s2, Return tt) ∧
    let owner :=
      if decide (hash_fn "key1" < hash_fn (name can5)) then can5 else can3 in
    (heap s1 !!! data owner) !! "key1" = Some 5 ∧
    heap s2 !!! data owner = delete "key1" (heap s1 !!! data owner) ∧
    ∀ l, l ≠ data owner → heap s2 !!! l = heap s1 !!! l.
Proof.
  assert (ring_inv ring_two) as H1
    by (vm_compute; split; [repeat constructor|reflexivity]).
  assert (ring ring_two !! hash_fn (name can5) = None) as H2
    by (vm_compute; reflexivity).
  assert (predecessor_position (dom (ring ring_two)) (hash_fn (name can5)) 100)
    as H3 by (by apply (bool_decide_unpack _); vm_compute).
  assert (successor_position (dom (ring ring_two)) (hash_fn (name can5)) 234)
    as H4 by (by apply (bool_decide_unpack _); vm_compute).
  assert (hash_fn (name can5) < 234) as H5 by (vm_compute; reflexivity).
  assert (ring ring_two !! 234 = Some can3) as H6 by (vm_compute; reflexivity).
  assert (data can5 ≠ data can3) as H7 by (vm_compute; by intros [=]).
  assert ((heap ring_two !!! data can3) !! "key1" = Some 5) as H8
    by (vm_compute; reflexivity).
  assert (100 ≤ hash_fn "key1" < 234) as H9
    by (vm_compute; split; [by intros [=]|reflexivity]).
  split_and!; try assumption; try apply H9.
  exact (add_server_keys_found can5 ring_two 100 234 can3 "key1" 5
           H1 H2 H3 H4 H5 H6 H7 H8 H9).
Defined.
